(** * ESC/POS network printer driver (printer.c): model and properties

    A shallow embedding of [printer.c].  C [int]s are mathematical integers
    ([Z]): the model covers the runs in which no [int] computation leaves
    the range of [int] (signed overflow is undefined in C); [/] and [%] of C
    truncate towards zero and are rendered by [Z.quot] and [Z.rem].  Bytes
    ([unsigned char]) are integers in [0, 256), and a conversion to
    [unsigned char] is a reduction modulo 256.  A pointer into a byte array
    is the list of the bytes from the pointed position on, so that [p + k]
    is [drop k p] and [p[i]] is a list lookup that faults outside the array.
    Out-parameters become components of the returned value. *)

From Stdlib Require Import ZArith Lia.
From stdpp Require Import base option list.

Local Open Scope Z_scope.

(** ** Outcomes of running a C function *)

(** [Done a]: the call returned [a].  [Fault]: the call did not return a
    defined value, because an [assert] failed (abort), because it touched
    memory outside an array or because it read an uninitialised variable
    (undefined behaviour).  [OutOfFuel]: the bounded unrolling of a [while]
    loop was too short; the theorems below show that the fuel the model
    supplies is always enough. *)
Inductive result (A : Type) : Type :=
  | Done (a : A)
  | Fault
  | OutOfFuel.
Arguments Done {A} a.
Arguments Fault {A}.
Arguments OutOfFuel {A}.

#[global] Instance result_ret : MRet result := fun A a => Done a.
#[global] Instance result_bind : MBind result := fun A B f m =>
  match m with
  | Done a => f a
  | Fault => Fault
  | OutOfFuel => OutOfFuel
  end.

(** [assert(c)] *)
Definition assert (c : bool) : result unit :=
  if c then Done tt else Fault.

(** [p[i]] for a pointer [p] into an array of bytes. *)
Definition deref (p : list Z) (i : Z) : result Z :=
  if i <? 0 then Fault
  else match p !! Z.to_nat i with
       | Some v => Done v
       | None => Fault
       end.

(** [for (i = lo; i < lo + n; i++) s = body(i, s)] with a loop-invariant
    bound. *)
Fixpoint for_range {S : Type} (lo : Z) (n : nat)
    (body : Z -> S -> result S) (s : S) : result S :=
  match n with
  | O => Done s
  | Datatypes.S n' => s' ← body lo s; for_range (lo + 1) n' body s'
  end.

(** ** Constants of constants.h and error codes of error_private.h *)

(** The header constants.h is not among the sources: the dot geometry and
    the command strings are parameters of the model. *)
Record constants : Type := {
  ESCPOS_MAX_DOT_WIDTH : Z;
  ESCPOS_CHUNK_DOT_HEIGHT : Z;
  ESCPOS_CHUNK_OVERLAP : Z;
  ESCPOS_CMD_CUT : list Z;
  ESCPOS_CMD_FEED : list Z;
  ESCPOS_CMD_DEFINE_DL_BIT_IMAGE : list Z;
  ESCPOS_CMD_PRINT_DL_BIT_IMAGE : list Z
}.

(** Modelled from the spec: the component counts [ESCPOS_COMP_*] of
    constants.h, which section 3 of the specification fixes as 1 (gray),
    2 (gray+alpha), 3 (RGB) and 4 (RGBA), the values the decoder reports. *)
Definition ESCPOS_COMP_G : Z := 1.
Definition ESCPOS_COMP_GA : Z := 2.
Definition ESCPOS_COMP_RGB : Z := 3.
Definition ESCPOS_COMP_RGBA : Z := 4.

Inductive escpos_error : Type :=
  | ESCPOS_ERROR_NONE
  | ESCPOS_ERROR_SOCK
  | ESCPOS_ERROR_INVALID_ADDR
  | ESCPOS_ERROR_CONNECTION_FAILED
  | ESCPOS_ERROR_SEND_FAILED
  | ESCPOS_ERROR_IMAGE_UPLOAD_FAILED
  | ESCPOS_ERROR_IMAGE_PRINT_FAILED.

(** ** Pixel sampler and padding calculator *)

Definition set_bit (byte : Z) (i : Z) (bit : Z) : result Z :=
  _ ← assert ((i >=? 0) && (i <? 8));
  if bit >? 0
  then Done (Z.lor byte (Z.shiftl 1 i) mod 256)
  else Done (Z.land byte (Z.lnot (Z.shiftl 1 i)) mod 256).

Definition convert_to_bit (pixel : list Z) (comp : Z) : result Z :=
  _ ← assert (comp >? 0);
  if (comp =? ESCPOS_COMP_G) || (comp =? ESCPOS_COMP_GA) then
    p ← deref pixel 0;
    Done (if p <? 128 then 1 else 0)
  else if (comp =? ESCPOS_COMP_RGB) || (comp =? ESCPOS_COMP_RGBA) then
    r ← deref pixel 0;
    g ← deref pixel 1;
    b ← deref pixel 2;
    Done (if Z.quot (r + g + b) 3 <? 128 then 1 else 0)
  else
    (* no case of the switch is taken: [bit] is returned uninitialised *)
    Fault.

Definition calculate_padding (size : Z) : Z * Z :=
  if Z.rem size 32 =? 0 then (0, 0)
  else
    let padding := 32 - Z.rem size 32 in
    (Z.quot padding 2,
     Z.quot padding 2 + (if Z.rem padding 2 =? 0 then 0 else 1)).

(** ** The socket, the global error variable and the transport *)

(** What one call of [send] on a blocking stream socket does with a
    non-empty request: it fails (returns -1) or it accepts at least one and
    at most all of the requested bytes.  [SendAccept k] accepts [k] bytes,
    or the whole request when that is shorter. *)
Inductive send_result : Type :=
  | SendError
  | SendAccept (k : positive).

(** Calls of the protocol layer, recorded as they return. *)
Inductive op_event : Type :=
  | OpUpload (result : Z)
  | OpPrint (result : Z).

(** The environment of the driver.  [net] fixes the outcome of the n-th call
    of [send] on the connection and [clock] counts the calls made so far;
    [wire] is the byte stream the socket has accepted; [last_error] is the
    global of error_private.h.  [raw_calls] and [ops] are ghost journals:
    the messages handed to [escpos_printer_raw] and the uploads and prints
    that returned, oldest first. *)
Record world : Type := World {
  net : nat -> send_result;
  clock : nat;
  wire : list Z;
  last_error : escpos_error;
  raw_calls : list (list Z);
  ops : list op_event
}.

Definition set_last_error (e : escpos_error) (st : world) : world :=
  World (net st) (clock st) (wire st) e (raw_calls st) (ops st).

Definition log_raw (m : list Z) (st : world) : world :=
  World (net st) (clock st) (wire st) (last_error st) (raw_calls st ++ [m]) (ops st).

Definition log_op (e : op_event) (st : world) : world :=
  World (net st) (clock st) (wire st) (last_error st) (raw_calls st) (ops st ++ [e]).

(** [send(sockfd, buf, len, 0)]: the return value and the new environment. *)
Definition send (st : world) (buf : list Z) (len : Z) : Z * world :=
  match net st (clock st) with
  | SendError =>
      (-1, World (net st) (Datatypes.S (clock st)) (wire st) (last_error st)
                 (raw_calls st) (ops st))
  | SendAccept k =>
      let n := Z.min (Z.pos k) len in
      (n, World (net st) (Datatypes.S (clock st))
                (wire st ++ take (Z.to_nat n) buf) (last_error st)
                (raw_calls st) (ops st))
  end.

(** The [while (sent < total)] loop of [escpos_printer_raw]; it returns the
    final value of [sent]. *)
Fixpoint raw_loop (fuel : nat) (st : world) (message : list Z)
    (total sent : Z) : result (Z * world) :=
  match fuel with
  | O => OutOfFuel
  | Datatypes.S fuel' =>
      if sent <? total then
        let '(bytes, st1) := send st message total in
        if bytes =? -1
        then Done (sent, set_last_error ESCPOS_ERROR_SEND_FAILED st1)
        else raw_loop fuel' st1 message total (sent + bytes)
      else Done (sent, st)
  end.

(** [message] points to at least [len] bytes (reading further is undefined). *)
Definition readable (message : list Z) (len : Z) : result unit :=
  if len <=? Z.of_nat (length message) then Done tt else Fault.

Definition escpos_printer_raw (st : world) (message : list Z) (len : Z)
    : result (Z * world) :=
  _ ← readable message len;
  let st := log_raw (take (Z.to_nat len) message) st in
  let total := len in
  '(sent, st) ← raw_loop (Datatypes.S (Z.to_nat total)) st message total 0;
  Done ((if sent =? total then 0 else 1), st).

(** [strncpy(dst, src, n)] from a string literal whose bytes are [src]
    (the terminating NUL left implicit): the [n] bytes written to [dst]. *)
Fixpoint strncpy (src : list Z) (n : nat) {struct n} : list Z :=
  match n with
  | O => []
  | Datatypes.S n' =>
      match src with
      | [] => replicate n 0
      | c :: src' => if c =? 0 then replicate n 0 else c :: strncpy src' n'
      end
  end.

Definition escpos_printer_cut (K : constants) (st : world) : result (Z * world) :=
  escpos_printer_raw st (ESCPOS_CMD_CUT K) 3.

Definition escpos_printer_feed (K : constants) (st : world) (lines : Z)
    : result (Z * world) :=
  let buffer := strncpy (ESCPOS_CMD_FEED K) 2 ++ [lines mod 256] in
  escpos_printer_raw st buffer 3.

(** ** Bitmap packer *)

(** [set_bit(&pixel_bits[curr_byte], i, bit)] *)
Definition store_bit (pixel_bits : list Z) (curr_byte i bit : Z)
    : result (list Z) :=
  old ← deref pixel_bits curr_byte;
  new ← set_bit old i bit;
  Done (<[Z.to_nat curr_byte := new]> pixel_bits).

Definition convert_image_to_bits (pixel_bits image_data : list Z)
    (w h comp : Z) : result (list Z * Z * Z) :=
  let '(padding_l, padding_r) := calculate_padding w in
  let '(padding_t, padding_b) := calculate_padding h in
  let padding_b := padding_b + padding_t in
  let padded_h := h + padding_b in
  pixel_bits ←
    for_range 0 (Z.to_nat padding_l) (fun x =>
      for_range 0 (Z.to_nat padded_h) (fun y pixel_bits =>
        let pi := x * padded_h + y in
        let curr_byte := Z.quot pi 8 in
        store_bit pixel_bits curr_byte (7 - Z.rem pi 8) 0)) pixel_bits;
  pixel_bits ←
    for_range 0 (Z.to_nat w) (fun x =>
      for_range 0 (Z.to_nat padded_h) (fun y pixel_bits =>
        let pi := padding_l * padded_h + x * padded_h + y in
        let curr_byte := Z.quot pi 8 in
        bit ← (if y <? h
               then convert_to_bit
                      (drop (Z.to_nat (y * w * comp + x * comp)) image_data) comp
               else Done 0);
        store_bit pixel_bits curr_byte (7 - Z.rem pi 8) bit)) pixel_bits;
  pixel_bits ←
    for_range 0 (Z.to_nat padding_r) (fun x =>
      for_range 0 (Z.to_nat padded_h) (fun y pixel_bits =>
        let pi := padding_l * padded_h + w * padded_h + x * padded_h + y in
        let curr_byte := Z.quot pi 8 in
        store_bit pixel_bits curr_byte (7 - Z.rem pi 8) 0)) pixel_bits;
  Done (pixel_bits, w + padding_l + padding_r, h + padding_b).

(** ** Upload and print *)

(** The [for] loop of [escpos_printer_upload], [n] iterations from [i] on,
    left by [break] on the first failing send; it returns [result]. *)
Fixpoint upload_loop (n : nat) (i : Z) (st : world) (pixel_bits : list Z)
    : result (Z * world) :=
  match n with
  | O => Done (0, st)
  | Datatypes.S n' =>
      '(result, st) ← escpos_printer_raw st (drop (Z.to_nat (i * 4)) pixel_bits) 4;
      if negb (result =? 0) then Done (result, st)
      else upload_loop n' (i + 1) st pixel_bits
  end.

Definition escpos_printer_upload (K : constants) (st : world)
    (pixel_bits : list Z) (w h : Z) : result (Z * world) :=
  _ ← assert ((w >? 0) && (w <=? ESCPOS_CHUNK_DOT_HEIGHT K));
  _ ← assert ((h >? 0) && (h <=? ESCPOS_CHUNK_DOT_HEIGHT K));
  _ ← assert (Z.rem w 32 =? 0);
  _ ← assert (Z.rem h 32 =? 0);
  let buffer :=
    strncpy (ESCPOS_CMD_DEFINE_DL_BIT_IMAGE K) 2
    ++ [Z.quot w 8 mod 256; Z.quot h 8 mod 256] in
  '(result, st) ← escpos_printer_raw st buffer 4;
  '(result, st) ←
    (if result =? 0
     then upload_loop (Z.to_nat (Z.quot (w * Z.quot h 8) 4)) 0 st pixel_bits
     else Done (result, st));
  let st :=
    if negb (result =? 0)
    then set_last_error ESCPOS_ERROR_IMAGE_UPLOAD_FAILED st else st in
  Done (result, log_op (OpUpload result) st).

Definition escpos_printer_print (K : constants) (st : world)
    : result (Z * world) :=
  '(result, st) ← escpos_printer_raw st (ESCPOS_CMD_PRINT_DL_BIT_IMAGE K) 3;
  let st :=
    if negb (result =? 0)
    then set_last_error ESCPOS_ERROR_IMAGE_PRINT_FAILED st else st in
  Done (result, log_op (OpPrint result) st).

(** ** Chunking orchestrator *)

(** What [stbi_load] hands back when it does not return NULL. *)
Record image : Type := Image {
  width : Z;
  height : Z;
  comp : Z;
  image_data : list Z
}.

Definition print_height (K : constants) : Z :=
  ESCPOS_CHUNK_DOT_HEIGHT K - ESCPOS_CHUNK_OVERLAP K.

(** The initialiser of [chunk_height] in the loop body. *)
Definition chunk_height (K : constants) (height y : Z) : Z :=
  if (y + 1) * ESCPOS_CHUNK_DOT_HEIGHT K <=? height
  then ESCPOS_CHUNK_DOT_HEIGHT K
  else height - y * ESCPOS_CHUNK_DOT_HEIGHT K.

(** One pass through the body of the [while] loop up to the test of
    [result]: pack chunk [y], upload it, print it. *)
Definition image_round (K : constants) (st : world) (im : image)
    (pixel_bits : list Z) (y : Z) : result (Z * world * list Z) :=
  let chunk_height := chunk_height K (height im) y in
  '(pixel_bits, bitmap_w, bitmap_h) ←
    convert_image_to_bits pixel_bits
      (drop (Z.to_nat (y * print_height K * width im * comp im)) (image_data im))
      (width im) chunk_height (comp im);
  '(result, st) ← escpos_printer_upload K st pixel_bits bitmap_w bitmap_h;
  '(result, st) ←
    (if result =? 0 then escpos_printer_print K st else Done (result, st));
  Done (result, st, pixel_bits).

Fixpoint image_loop (K : constants) (fuel : nat) (st : world) (im : image)
    (pixel_bits : list Z) (y : Z) : result (Z * world) :=
  match fuel with
  | O => OutOfFuel
  | Datatypes.S fuel' =>
      if y * print_height K <? height im then
        '(result, st, pixel_bits) ← image_round K st im pixel_bits y;
        if negb (result =? 0) then Done (result, st)
        else image_loop K fuel' st im pixel_bits (y + 1)
      else
        (* [result] is 0 here: initially, and after every completed round *)
        Done (0, st)
  end.

(** An uninitialised local array of [n] bytes: [stack] gives the
    indeterminate bytes found there. *)
Definition local_array (stack : nat -> Z) (n : Z) : list Z :=
  (fun i => stack i mod 256) <$> seq 0 (Z.to_nat n).

(** [loaded] is the outcome of [stbi_load] ([None] for NULL); [stack] gives
    the initial bytes of the local array [pixel_bits]. *)
Definition escpos_printer_image (K : constants) (st : world)
    (loaded : option image) (stack : nat -> Z) : result (Z * world) :=
  match loaded with
  | Some im =>
      let byte_width := Z.quot (ESCPOS_MAX_DOT_WIDTH K) 8 in
      let pixel_bits :=
        local_array stack (byte_width * ESCPOS_CHUNK_DOT_HEIGHT K) in
      image_loop K (Datatypes.S (Z.to_nat (height im))) st im pixel_bits 0
  | None => Done (0, st)
  end.

(** ** Connection set-up and tear-down *)

(** The handle [escpos_printer] of printer.h. *)
Record escpos_printer : Type := Printer {
  sockfd : Z
}.

(** What the system answers to the calls of [escpos_printer_network]:
    the return values of [socket], of [inet_pton] on the given address and
    of [connect], and whether [malloc] returns NULL. *)
Record os_answers : Type := OsAnswers {
  socket_returns : Z;
  inet_pton_returns : Z;
  connect_returns : Z;
  malloc_fails : bool
}.

(** The part of the process these two functions touch: the global
    [last_error] and the descriptors that are open.  The heap block of the
    handle is not tracked: the model says nothing about a handle that is used
    after [escpos_printer_destroy]. *)
Record process : Type := Process {
  proc_last_error : escpos_error;
  open_fds : list Z
}.

(** [addr] is [None] for a NULL address; the result is [None] for a NULL
    handle. *)
Definition escpos_printer_network (os : os_answers) (p : process)
    (addr : option (list Z)) : result (option escpos_printer * process) :=
  _ ← assert (bool_decide (addr <> None));
  let sockfd := socket_returns os in
  if sockfd <? 0 then
    Done (None, Process ESCPOS_ERROR_SOCK (open_fds p))
  else
    let p := Process (proc_last_error p) (sockfd :: open_fds p) in
    if inet_pton_returns os =? 0 then
      Done (None, Process ESCPOS_ERROR_INVALID_ADDR (open_fds p))
    else if negb (connect_returns os =? 0) then
      Done (None, Process ESCPOS_ERROR_CONNECTION_FAILED (open_fds p))
    else if malloc_fails os then
      (* [printer->sockfd = sockfd] through a NULL pointer *)
      Fault
    else
      Done (Some (Printer sockfd), p).

(** [close(fd)] *)
Definition close (fd : Z) (p : process) : process :=
  Process (proc_last_error p) (List.remove Z.eq_dec fd (open_fds p)).

Definition escpos_printer_destroy (printer : option escpos_printer)
    (p : process) : result process :=
  _ ← assert (bool_decide (printer <> None));
  match printer with
  | Some pr => Done (close (sockfd pr) p)
  | None => Fault
  end.

(** ** Notions used to state the properties *)

(** The first [n] groups of four bytes of [l]. *)
Fixpoint groups_of_4 (n : nat) (l : list Z) : list (list Z) :=
  match n with
  | O => []
  | Datatypes.S n' => take 4 l :: groups_of_4 n' (drop 4 l)
  end.

(** A run that ends within the fuel it was given. *)
Definition within_fuel {A : Type} (m : result A) : Prop := m <> OutOfFuel.

(** The journal of [k] rounds in which the upload and the print both
    returned 0. *)
Definition rounds_journal (k : nat) : list op_event :=
  concat (replicate k [OpUpload 0; OpPrint 0]).

(** The ceiling of [H / print_height], for a positive print height. *)
Definition chunk_count (K : constants) (H : Z) : nat :=
  Z.to_nat ((H + print_height K - 1) / print_height K).

(** [completed_rounds K im k y s s']: starting at cursor [y] in environment
    and bitmap buffer [s], the next [k] rounds each returned 0, one after the
    other, and left [s']. *)
Inductive completed_rounds (K : constants) (im : image)
    : nat -> Z -> world * list Z -> world * list Z -> Prop :=
  | rounds_none (y : Z) (s : world * list Z) :
      completed_rounds K im O y s s
  | rounds_next (k : nat) (y : Z) (st st1 : world) (bits bits1 : list Z)
      (s' : world * list Z) :
      image_round K st im bits y = Done (0, st1, bits1) ->
      completed_rounds K im k (y + 1) (st1, bits1) s' ->
      completed_rounds K im (Datatypes.S k) y (st, bits) s'.

(** A round that started in [st] returned [r] and left [st']: either the
    upload returned [r] and set the upload error, and nothing was printed, or
    the upload returned 0 and the print returned [r] and set the print
    error. *)
Definition round_failure (st : world) (r : Z) (st' : world) : Prop :=
  (ops st' = ops st ++ [OpUpload r]
   /\ last_error st' = ESCPOS_ERROR_IMAGE_UPLOAD_FAILED)
  \/ (ops st' = ops st ++ [OpUpload 0; OpPrint r]
      /\ last_error st' = ESCPOS_ERROR_IMAGE_PRINT_FAILED).

(** The dot with index [pi] of a packed bitmap: byte [pi / 8], counting
    the bits of a byte from the most significant one. *)
Definition pixel_at (bits : list Z) (pi : Z) : bool :=
  Z.testbit (default 0 (bits !! Z.to_nat (pi / 8))) (7 - pi mod 8).

(** The dot that the packer is to produce in column [x] and row [y] of the
    padded bitmap: the sample of the image dot ([x - padding_l], [y]) inside
    the image, blank in the padding. *)
Definition expected_pixel (image_data : list Z) (w h comp padding_l : Z)
    (x y : Z) : bool :=
  if (padding_l <=? x) && (x <? padding_l + w) && (y <? h) then
    match convert_to_bit
            (drop (Z.to_nat (y * w * comp + (x - padding_l) * comp)) image_data)
            comp with
    | Done bit => bit >? 0
    | _ => false
    end
  else false.

(** The state of the bitmap buffer when the dots with index below [m] have
    been written: they hold the expected values, in bytes within range, and
    the bytes from index [m / 8] (rounded up) on are as they were in
    [bits0]. *)
Definition packed_upto (e : Z -> bool) (bits0 bits : list Z) (m : Z) : Prop :=
  length bits = length bits0
  /\ (forall pj, 0 <= pj < m -> pixel_at bits pj = e pj)
  /\ (forall k : nat, m <= 8 * Z.of_nat k -> bits !! k = bits0 !! k)
  /\ (forall k : nat, 8 * Z.of_nat k < m ->
        exists v, bits !! k = Some v /\ 0 <= v < 256).

(** A connection on which every call of [send] accepts a request of up to
    four bytes whole. *)
Definition reliable (st : world) : Prop :=
  forall n, exists k, net st n = SendAccept k /\ 4 <= Z.pos k.

(** ** Concrete configurations used in the examples *)

(** A small printer: 64 dots wide, 64-dot chunks, no overlap margin; the
    command strings are the ESC/POS ones (GS V 1, ESC d, GS *, GS / 0). *)
Definition printer64 : constants :=
  {| ESCPOS_MAX_DOT_WIDTH := 64;
     ESCPOS_CHUNK_DOT_HEIGHT := 64;
     ESCPOS_CHUNK_OVERLAP := 0;
     ESCPOS_CMD_CUT := [29; 86; 1];
     ESCPOS_CMD_FEED := [27; 100];
     ESCPOS_CMD_DEFINE_DL_BIT_IMAGE := [29; 42];
     ESCPOS_CMD_PRINT_DL_BIT_IMAGE := [29; 47; 0] |}.

(** The same printer with an overlap margin of 8 dots. *)
Definition printer64_overlap8 : constants :=
  {| ESCPOS_MAX_DOT_WIDTH := 64;
     ESCPOS_CHUNK_DOT_HEIGHT := 64;
     ESCPOS_CHUNK_OVERLAP := 8;
     ESCPOS_CMD_CUT := [29; 86; 1];
     ESCPOS_CMD_FEED := [27; 100];
     ESCPOS_CMD_DEFINE_DL_BIT_IMAGE := [29; 42];
     ESCPOS_CMD_PRINT_DL_BIT_IMAGE := [29; 47; 0] |}.

(** A gray image of 2 x 2 dots, left column dark, right column light. *)
Definition two_by_two : list Z := [0; 255; 0; 255].

(** A dark gray image 8 dots wide and 65 dots high: two chunks on a
    64-dot printer. *)
Definition tall_image : image := Image 8 65 1 (replicate 520 0).

(** A freshly connected printer whose socket behaves as [n]. *)
Definition connected (n : nat -> send_result) : world :=
  World n 0%nat [] ESCPOS_ERROR_NONE [] [].

(** A socket that accepts every request whole. *)
Definition net_reliable : nat -> send_result := fun _ => SendAccept 4096.

(** A socket that accepts three bytes, then one byte, then everything. *)
Definition net_3_then_1 : nat -> send_result := fun n =>
  match n with
  | O => SendAccept 3
  | Datatypes.S O => SendAccept 1
  | _ => SendAccept 4096
  end.

(** A socket that accepts three bytes and then every request whole. *)
Definition net_3_then_all : nat -> send_result := fun n =>
  match n with
  | O => SendAccept 3
  | _ => SendAccept 4096
  end.

(** A socket that fails from its [k]-th call on. *)
Definition net_fails_from (k : nat) : nat -> send_result := fun n =>
  if (n <? k)%nat then SendAccept 4096 else SendError.

(** ** Properties of the padding calculator *)

Lemma calculate_padding_total (size : Z) :
  1 <= size ->
  fst (calculate_padding size) + snd (calculate_padding size)
  = (if size mod 32 =? 0 then 0 else 32 - size mod 32).
Proof.
  intros Hs. unfold calculate_padding.
  rewrite Z.rem_mod_nonneg by lia.
  destruct (size mod 32 =? 0) eqn:E; [reflexivity|]. cbn [fst snd].
  apply Z.eqb_neq in E.
  pose proof (Z.mod_pos_bound size 32 ltac:(lia)) as Hb.
  set (p := 32 - size mod 32) in *.
  assert (0 < p <= 31) as Hp by (subst p; lia).
  rewrite Z.quot_div_nonneg, Z.rem_mod_nonneg by lia.
  pose proof (Z.div_mod p 2 ltac:(lia)) as Hdm.
  pose proof (Z.mod_pos_bound p 2 ltac:(lia)) as Hm.
  destruct (p mod 2 =? 0) eqn:E2;
    [apply Z.eqb_eq in E2 | apply Z.eqb_neq in E2]; lia.
Qed.

Lemma calculate_padding_left (size : Z) :
  1 <= size ->
  fst (calculate_padding size)
  = (fst (calculate_padding size) + snd (calculate_padding size)) / 2.
Proof.
  intros Hs. unfold calculate_padding.
  rewrite Z.rem_mod_nonneg by lia.
  destruct (size mod 32 =? 0) eqn:E; [reflexivity|]. cbn [fst snd].
  apply Z.eqb_neq in E.
  pose proof (Z.mod_pos_bound size 32 ltac:(lia)) as Hb.
  set (p := 32 - size mod 32) in *.
  assert (0 < p <= 31) as Hp by (subst p; lia).
  rewrite Z.quot_div_nonneg, Z.rem_mod_nonneg by lia.
  pose proof (Z.div_mod p 2 ltac:(lia)) as Hdm.
  pose proof (Z.mod_pos_bound p 2 ltac:(lia)) as Hm.
  replace (p / 2 + (p / 2 + (if p mod 2 =? 0 then 0 else 1))) with p;
    [reflexivity|].
  destruct (p mod 2 =? 0) eqn:E2;
    [apply Z.eqb_eq in E2 | apply Z.eqb_neq in E2]; lia.
Qed.

Lemma calculate_padding_nonneg (size : Z) :
  1 <= size ->
  0 <= fst (calculate_padding size) /\ 0 <= snd (calculate_padding size).
Proof.
  intros Hs.
  pose proof (calculate_padding_total size Hs) as Ht.
  pose proof (calculate_padding_left size Hs) as Hl.
  pose proof (Z.mod_pos_bound size 32 ltac:(lia)) as Hb.
  set (l := fst (calculate_padding size)) in *.
  set (r := snd (calculate_padding size)) in *.
  assert (0 <= l + r) as Hlr by (destruct (size mod 32 =? 0); lia).
  pose proof (Z.div_mod (l + r) 2 ltac:(lia)) as Hdm.
  pose proof (Z.mod_pos_bound (l + r) 2 ltac:(lia)) as Hm.
  lia.
Qed.

Lemma calculate_padding_aligned (size : Z) :
  1 <= size ->
  (size + fst (calculate_padding size) + snd (calculate_padding size)) mod 32 = 0.
Proof.
  intros Hs.
  pose proof (calculate_padding_total size Hs) as Ht.
  pose proof (Z.div_mod size 32 ltac:(lia)) as Hdm.
  destruct (size mod 32 =? 0) eqn:E.
  - apply Z.eqb_eq in E.
    replace (size + fst (calculate_padding size) + snd (calculate_padding size))
      with size by lia.
    exact E.
  - replace (size + fst (calculate_padding size) + snd (calculate_padding size))
      with ((size / 32 + 1) * 32) by lia.
    apply Z.mod_mul. lia.
Qed.

Lemma calculate_padding_least (size m : Z) :
  1 <= size -> m mod 32 = 0 -> size <= m ->
  size + fst (calculate_padding size) + snd (calculate_padding size) <= m.
Proof.
  intros Hs Hm Hle.
  pose proof (calculate_padding_total size Hs) as Ht.
  pose proof (Z.mod_pos_bound size 32 ltac:(lia)) as Hb.
  pose proof (Z.div_mod m 32 ltac:(lia)) as Hm32.
  pose proof (Z.div_mod size 32 ltac:(lia)) as Hs32.
  rewrite Hm in Hm32.
  destruct (size mod 32 =? 0) eqn:E; [lia|].
  apply Z.eqb_neq in E.
  assert (size / 32 < m / 32) by nia. nia.
Qed.

(** C4.  For every size >= 1 the padded size is a multiple of 32, and the
    least one that is >= size; the total padding is 0 on an aligned size and
    32 - size mod 32 otherwise; left is the floor of half the total and right
    is the rest, one more than left exactly when the total is odd. *)
Theorem calculate_padding_spec (size : Z) :
  1 <= size ->
  let left := fst (calculate_padding size) in
  let right := snd (calculate_padding size) in
  (size + left + right) mod 32 = 0
  /\ size <= size + left + right
  /\ (forall m, m mod 32 = 0 -> size <= m -> size + left + right <= m)
  /\ (size mod 32 = 0 -> left + right = 0)
  /\ (size mod 32 <> 0 -> left + right = 32 - size mod 32)
  /\ left = (left + right) / 2
  /\ right = (left + right) - left
  /\ (Z.odd (left + right) = true -> right = left + 1)
  /\ (Z.odd (left + right) = false -> right = left).
Proof.
  intros Hs left right.
  pose proof (calculate_padding_total size Hs) as Ht.
  pose proof (calculate_padding_left size Hs) as Hl.
  pose proof (calculate_padding_nonneg size Hs) as [Hl0 Hr0].
  pose proof (calculate_padding_aligned size Hs) as Ha.
  pose proof (Z.mod_pos_bound size 32 ltac:(lia)) as Hb.
  fold left right in Ht, Hl, Hl0, Hr0, Ha.
  pose proof (Z.div_mod (left + right) 2 ltac:(lia)) as Hdm.
  rewrite <- Hl in Hdm.
  split; [exact Ha|]. split; [lia|]. split.
  { intros m Hm Hle. apply calculate_padding_least; assumption. }
  split. { intros E. rewrite E in Ht. exact Ht. }
  split. { intros E. apply Z.eqb_neq in E. rewrite E in Ht. exact Ht. }
  split; [exact Hl|]. split; [lia|].
  pose proof (Zmod_odd (left + right)) as Ho.
  destruct (Z.odd (left + right)); split; intros; try discriminate; lia.
Qed.

Lemma calculate_padding_spec_witness :
  let left := fst (calculate_padding 33) in
  let right := snd (calculate_padding 33) in
  (33 + left + right) mod 32 = 0
  /\ 33 <= 33 + left + right
  /\ (forall m, m mod 32 = 0 -> 33 <= m -> 33 + left + right <= m)
  /\ (33 mod 32 = 0 -> left + right = 0)
  /\ (33 mod 32 <> 0 -> left + right = 32 - 33 mod 32)
  /\ left = (left + right) / 2
  /\ right = (left + right) - left
  /\ (Z.odd (left + right) = true -> right = left + 1)
  /\ (Z.odd (left + right) = false -> right = left).
Proof. apply (calculate_padding_spec 33). lia. Defined.

(** C5 (as amended).  The padding of 32 and of 64 is (0,0); the padding of
    33 is (15,16): 31 dots split with the odd one on the right. *)
Theorem calculate_padding_examples :
  calculate_padding 32 = (0, 0)
  /\ calculate_padding 33 = (15, 16)
  /\ calculate_padding 64 = (0, 0).
Proof. repeat split; reflexivity. Qed.

(** The three values as the specification lists them do not hold together:
    the padding of 33 is not (0,1). *)
Lemma calculate_padding_33_not_0_1 :
  ~ (calculate_padding 32 = (0, 0)
     /\ calculate_padding 33 = (0, 1)
     /\ calculate_padding 64 = (0, 0)).
Proof. intros (_ & H & _). vm_compute in H. discriminate H. Qed.

(** ** Properties of the pixel sampler *)

(** C6.  On formats 1 and 2 the sampler returns 1 when the first byte is
    below 128 and 0 otherwise; on formats 3 and 4 it returns 1 when the
    floor of the mean of the first three bytes is below 128 and 0 otherwise,
    whatever follows them (alpha is not read); gray 127 gives 1 and gray 128
    gives 0. *)
Theorem convert_to_bit_spec (c l r g b : Z) (rest : list Z) :
  0 <= r < 256 -> 0 <= g < 256 -> 0 <= b < 256 ->
  (c = 1 \/ c = 2 ->
     convert_to_bit (l :: rest) c = Done (if l <? 128 then 1 else 0))
  /\ (c = 3 \/ c = 4 ->
     convert_to_bit (r :: g :: b :: rest) c
     = Done (if (r + g + b) / 3 <? 128 then 1 else 0))
  /\ convert_to_bit [127] 1 = Done 1
  /\ convert_to_bit [128] 1 = Done 0.
Proof.
  intros Hr Hg Hb. repeat split.
  - intros [-> | ->]; reflexivity.
  - intros Hc. rewrite <- Z.quot_div_nonneg by lia.
    destruct Hc as [-> | ->]; reflexivity.
Qed.

Lemma convert_to_bit_spec_witness :
  (4 = 1 \/ 4 = 2 ->
     convert_to_bit [127; 9] 4 = Done (if 127 <? 128 then 1 else 0))
  /\ (4 = 3 \/ 4 = 4 ->
     convert_to_bit [200; 100; 83; 9] 4
     = Done (if (200 + 100 + 83) / 3 <? 128 then 1 else 0))
  /\ convert_to_bit [127] 1 = Done 1
  /\ convert_to_bit [128] 1 = Done 0.
Proof. apply (convert_to_bit_spec 4 127 200 100 83 [9]); lia. Defined.

(** ** The transport: termination and journal *)

(** Take the steps of a run that are determined: binds on a known outcome,
    assertions on a known condition. *)
Ltac run_in H :=
  cbn [mbind result_bind mret result_ret assert andb negb] in H.
Ltac run :=
  cbn [mbind result_bind mret result_ret assert andb negb].

Lemma within_fuel_bind {A B : Type} (m : result A) (f : A -> result B) :
  within_fuel m ->
  (forall a, m = Done a -> within_fuel (f a)) ->
  within_fuel (m ≫= f).
Proof.
  unfold within_fuel. intros Hm Hf.
  destruct m as [a| |]; simpl;
    [apply Hf; reflexivity | discriminate | contradiction Hm; reflexivity].
Qed.

Lemma raw_loop_done (message : list Z) (total : Z) (fuel : nat) :
  forall (st : world) (sent : Z),
    0 <= sent ->
    (Z.to_nat (total - sent) < fuel)%nat ->
    exists sent' st',
      raw_loop fuel st message total sent = Done (sent', st')
      /\ ops st' = ops st
      /\ raw_calls st' = raw_calls st
      /\ net st' = net st.
Proof.
  induction fuel as [|fuel IH]; intros st sent Hs Hf; [lia|].
  simpl. destruct (Z.ltb_spec sent total) as [Hlt|Hge].
  - unfold send. destruct (net st (clock st)) as [|k] eqn:E.
    + simpl. eexists _, _. split; [reflexivity|]. simpl. auto.
    + set (n := Z.min (Z.pos k) total).
      assert (1 <= n <= total) as Hn by (subst n; lia).
      destruct (Z.eqb_spec n (-1)) as [Habs|_]; [lia|].
      edestruct (IH (World (net st) (Datatypes.S (clock st))
                       (wire st ++ take (Z.to_nat n) message) (last_error st)
                       (raw_calls st) (ops st)) (sent + n))
        as (sent' & st' & Hrun & Hops & Hcalls & Hnet); [lia | lia |].
      exists sent', st'. split; [exact Hrun|]. simpl in *. auto.
  - eexists _, _. split; [reflexivity|]. auto.
Qed.

Lemma escpos_printer_raw_within_fuel (st : world) (message : list Z) (len : Z) :
  within_fuel (escpos_printer_raw st message len).
Proof.
  unfold escpos_printer_raw, readable.
  destruct (len <=? Z.of_nat (length message)); cbn -[raw_loop];
    [|discriminate].
  destruct (raw_loop_done message len (Datatypes.S (Z.to_nat len))
              (log_raw (take (Z.to_nat len) message) st) 0)
    as (sent' & st' & -> & _); [lia | lia |].
  discriminate.
Qed.

Lemma escpos_printer_raw_journal (st st' : world) (message : list Z)
    (len r : Z) :
  escpos_printer_raw st message len = Done (r, st') ->
  len <= Z.of_nat (length message)
  /\ ops st' = ops st
  /\ raw_calls st' = raw_calls st ++ [take (Z.to_nat len) message]
  /\ net st' = net st.
Proof.
  unfold escpos_printer_raw, readable.
  destruct (Z.leb_spec len (Z.of_nat (length message))) as [Hle|Hgt];
    cbn -[raw_loop]; [|discriminate].
  destruct (raw_loop_done message len (Datatypes.S (Z.to_nat len))
              (log_raw (take (Z.to_nat len) message) st) 0)
    as (sent' & st1 & -> & Hops & Hcalls & Hnet); [lia | lia |].
  simpl. intros [= _ <-]. simpl in *. auto.
Qed.

(** ** The transport: retries after a partial write *)

(** C2 (the code at two failing inputs).  With a socket that accepts 3 of
    the 4 bytes "ABCD" and then 1 byte, [escpos_printer_raw] reports success
    although the socket received "ABCA": the retry starts again at the first
    byte of the message.  With a socket that accepts 3 bytes and then a whole
    request, it reports failure although no send failed ([last_error] is
    untouched), after putting "ABCABCD" on the wire. *)
Theorem escpos_printer_raw_resends_from_start :
  (exists st',
     escpos_printer_raw (connected net_3_then_1) [65; 66; 67; 68] 4
       = Done (0, st')
     /\ wire st' = [65; 66; 67; 65]
     /\ wire st' <> [65; 66; 67; 68])
  /\ (exists st',
     escpos_printer_raw (connected net_3_then_all) [65; 66; 67; 68] 4
       = Done (1, st')
     /\ wire st' = [65; 66; 67; 65; 66; 67; 68]
     /\ last_error st' = ESCPOS_ERROR_NONE
     /\ (forall n, net_3_then_all n <> SendError)).
Proof.
  split.
  - eexists. split; [vm_compute; reflexivity|].
    split; [reflexivity | discriminate].
  - eexists. split; [vm_compute; reflexivity|].
    split; [reflexivity|]. split; [reflexivity|].
    intros [|n]; discriminate.
Qed.

(** ** The upload: framing *)

Lemma strncpy_length (src : list Z) (n : nat) : length (strncpy src n) = n.
Proof.
  revert src. induction n as [|n IH]; intros src; [reflexivity|].
  simpl. destruct src as [|c src].
  - simpl. rewrite length_replicate. reflexivity.
  - destruct (c =? 0); simpl.
    + rewrite length_replicate. reflexivity.
    + rewrite IH. reflexivity.
Qed.

Lemma groups_of_4_concat (n : nat) :
  forall l : list Z, concat (groups_of_4 n l) = take (4 * n) l.
Proof.
  induction n as [|n IH]; intros l.
  - reflexivity.
  - change (groups_of_4 (Datatypes.S n) l)
      with (take 4 l :: groups_of_4 n (drop 4 l)).
    cbn [concat]. rewrite IH.
    replace (4 * Datatypes.S n)%nat with (4 + 4 * n)%nat by lia.
    apply take_take_drop.
Qed.

Lemma groups_of_4_length (n : nat) :
  forall l : list Z,
    (4 * n <= length l)%nat ->
    Forall (fun g => length g = 4%nat) (groups_of_4 n l).
Proof.
  induction n as [|n IH]; intros l Hl; simpl; constructor.
  - rewrite length_take. lia.
  - apply IH. rewrite length_drop. lia.
Qed.

Lemma groups_of_4_count (n : nat) :
  forall l : list Z, length (groups_of_4 n l) = n.
Proof.
  induction n as [|n IH]; intros l; simpl; [reflexivity|].
  rewrite IH. reflexivity.
Qed.

Lemma concat_groups_length (gs : list (list Z)) :
  Forall (fun g => length g = 4%nat) gs ->
  length (concat gs) = (4 * length gs)%nat.
Proof.
  induction 1 as [|g gs Hg _ IH]; simpl; [reflexivity|].
  rewrite length_app, IH, Hg. lia.
Qed.

Lemma upload_loop_journal (pixel_bits : list Z) (n : nat) :
  forall (i : Z) (st st' : world),
    0 <= i ->
    upload_loop n i st pixel_bits = Done (0, st') ->
    raw_calls st' = raw_calls st
                    ++ groups_of_4 n (drop (Z.to_nat (i * 4)) pixel_bits)
    /\ Forall (fun g => length g = 4%nat)
         (groups_of_4 n (drop (Z.to_nat (i * 4)) pixel_bits))
    /\ ops st' = ops st.
Proof.
  induction n as [|n IH]; intros i st st' Hi Hrun; simpl in Hrun.
  - injection Hrun as <-. simpl. rewrite app_nil_r. auto.
  - destruct (escpos_printer_raw st (drop (Z.to_nat (i * 4)) pixel_bits) 4)
      as [[r st1]| |] eqn:Hraw; simpl in Hrun; try discriminate.
    apply escpos_printer_raw_journal in Hraw as (Hlen & Hops & Hcalls & _).
    destruct (Z.eqb_spec r 0) as [->|Hr]; simpl in Hrun;
      [|injection Hrun as -> _; contradiction].
    apply IH in Hrun as (Hcalls' & Hall & Hops'); [|lia].
    replace (Z.to_nat ((i + 1) * 4)) with (Z.to_nat (i * 4) + 4)%nat
      in Hcalls', Hall by lia.
    rewrite <- drop_drop in Hcalls', Hall.
    simpl. split; [|split].
    + rewrite Hcalls', Hcalls, <- app_assoc. reflexivity.
    + constructor; [|exact Hall]. rewrite length_take. lia.
    + congruence.
Qed.

Lemma escpos_printer_raw_wire (st st' : world) (message : list Z) (r : Z) :
  (forall n, exists k, net st n = SendAccept k /\ 4 <= Z.pos k) ->
  escpos_printer_raw st message 4 = Done (r, st') ->
  r = 0 /\ wire st' = wire st ++ take 4 message /\ net st' = net st.
Proof.
  intros Hnet. unfold escpos_printer_raw, readable.
  destruct (4 <=? Z.of_nat (length message)); run; [|discriminate].
  change (Z.to_nat 4) with 4%nat. cbn [raw_loop]. unfold send at 1.
  cbn [net clock log_raw].
  destruct (Hnet (clock st)) as (k & -> & Hk).
  replace (Z.min (Z.pos k) 4) with 4 by lia.
  cbn -[take]. intros [= <- <-]. auto.
Qed.

Lemma upload_loop_wire (pixel_bits : list Z) (n : nat) :
  forall (i : Z) (st st' : world) (r : Z),
    0 <= i ->
    (forall n, exists k, net st n = SendAccept k /\ 4 <= Z.pos k) ->
    upload_loop n i st pixel_bits = Done (r, st') ->
    wire st' = wire st
               ++ concat (groups_of_4 n (drop (Z.to_nat (i * 4)) pixel_bits)).
Proof.
  induction n as [|n IH]; intros i st st' r Hi Hnet Hrun; simpl in Hrun.
  - injection Hrun as _ <-. simpl. rewrite app_nil_r. reflexivity.
  - destruct (escpos_printer_raw st (drop (Z.to_nat (i * 4)) pixel_bits) 4)
      as [[r1 st1]| |] eqn:Hraw; run_in Hrun; try discriminate.
    apply escpos_printer_raw_wire in Hraw as (-> & Hwire & Hnet1);
      [|exact Hnet].
    cbn [Z.eqb negb] in Hrun.
    apply IH in Hrun; [|lia | rewrite Hnet1; exact Hnet].
    replace (Z.to_nat ((i + 1) * 4)) with (Z.to_nat (i * 4) + 4)%nat
      in Hrun by lia.
    rewrite <- drop_drop in Hrun.
    rewrite Hrun, Hwire, <- app_assoc. reflexivity.
Qed.

Lemma aligned_area (w h : Z) :
  0 < w -> 0 < h -> Z.rem w 32 = 0 -> Z.rem h 32 = 0 ->
  Z.quot w 8 = w / 8 /\ Z.quot h 8 = h / 8
  /\ Z.quot (w * Z.quot h 8) 4 = w * (h / 8) / 4
  /\ 4 * (w * (h / 8) / 4) = w * (h / 8)
  /\ w * (h / 8) = 8 * (w / 8 * (h / 8))
  /\ 0 <= w * (h / 8).
Proof.
  intros Hw Hh Hrw Hrh.
  rewrite Z.rem_mod_nonneg in Hrw, Hrh by lia.
  rewrite !Z.quot_div_nonneg by lia.
  pose proof (Z.div_mod w 32 ltac:(lia)) as Hw32.
  pose proof (Z.div_mod h 32 ltac:(lia)) as Hh32.
  rewrite Hrw in Hw32. rewrite Hrh in Hh32.
  assert (w / 8 = 4 * (w / 32)) as Hw8
    by (symmetry; apply Z.div_unique with (r := 0); lia).
  assert (h / 8 = 4 * (h / 32)) as Hh8
    by (symmetry; apply Z.div_unique with (r := 0); lia).
  assert (0 <= w / 32) by (apply Z.div_pos; lia).
  assert (0 <= h / 32) by (apply Z.div_pos; lia).
  assert (w * (h / 8) / 4 = w * (h / 32)) as Hq
    by (symmetry; apply Z.div_unique with (r := 0); lia).
  rewrite Z.quot_div_nonneg by nia.
  repeat split; try reflexivity; nia.
Qed.

(** C3 (as amended).  A successful upload of a bitmap of w x h dots hands
    the transport first one message of 4 bytes, the 2 bytes of the
    define-downloaded-bit-image command followed by the bytes w/8 and h/8,
    and then the first w*(h/8) bytes of the bitmap in consecutive groups of
    4 bytes, one message per group; that is 8 * (w/8) * (h/8) bytes of
    data.  On a socket that accepts every request whole these bytes, in this
    order, are what the wire receives. *)
Theorem escpos_printer_upload_frames (K : constants) (st st' : world)
    (pixel_bits : list Z) (w h : Z) :
  escpos_printer_upload K st pixel_bits w h = Done (0, st') ->
  let header :=
    strncpy (ESCPOS_CMD_DEFINE_DL_BIT_IMAGE K) 2
    ++ [w / 8 mod 256; h / 8 mod 256] in
  let groups := groups_of_4 (Z.to_nat (w * (h / 8) / 4)) pixel_bits in
  length header = 4%nat
  /\ raw_calls st' = raw_calls st ++ header :: groups
  /\ Forall (fun g => length g = 4%nat) groups
  /\ concat groups = take (Z.to_nat (w * (h / 8))) pixel_bits
  /\ Z.of_nat (length (concat groups)) = w * (h / 8)
  /\ w * (h / 8) = 8 * (w / 8 * (h / 8))
  /\ (ESCPOS_CHUNK_DOT_HEIGHT K < 2048 ->
      header = strncpy (ESCPOS_CMD_DEFINE_DL_BIT_IMAGE K) 2 ++ [w / 8; h / 8])
  /\ ((forall n, exists k, net st n = SendAccept k /\ 4 <= Z.pos k) ->
      wire st' = wire st ++ header ++ concat groups).
Proof.
  intros Hrun header groups. unfold escpos_printer_upload in Hrun.
  destruct (Z.gtb_spec w 0) as [Hw|]; run_in Hrun; [|discriminate].
  destruct (Z.leb_spec w (ESCPOS_CHUNK_DOT_HEIGHT K)) as [Hwc|];
    run_in Hrun; [|discriminate].
  destruct (Z.gtb_spec h 0) as [Hh|]; run_in Hrun; [|discriminate].
  destruct (Z.leb_spec h (ESCPOS_CHUNK_DOT_HEIGHT K)) as [Hhc|];
    run_in Hrun; [|discriminate].
  destruct (Z.eqb_spec (Z.rem w 32) 0) as [Hrw|]; run_in Hrun; [|discriminate].
  destruct (Z.eqb_spec (Z.rem h 32) 0) as [Hrh|]; run_in Hrun; [|discriminate].
  destruct (aligned_area w h Hw Hh Hrw Hrh)
    as (Hw8 & Hh8 & Hq & Hfour & Height & Hpos).
  rewrite Hw8, Hh8 in Hrun. rewrite Hh8 in Hq. rewrite Hq in Hrun.
  fold header in Hrun.
  assert (length header = 4%nat) as Hlen
    by (subst header; rewrite length_app, strncpy_length; reflexivity).
  destruct (escpos_printer_raw st header 4) as [[r st1]| |] eqn:Hraw;
    run_in Hrun; try discriminate.
  pose proof (escpos_printer_raw_journal _ _ _ _ _ Hraw)
    as (_ & Hops & Hcalls & Hnet1).
  rewrite take_ge in Hcalls by lia.
  destruct (Z.eqb_spec r 0) as [->|Hr]; run_in Hrun.
  - destruct (upload_loop (Z.to_nat (w * (h / 8) / 4)) 0 st1 pixel_bits)
      as [[r2 st2]| |] eqn:Hloop; run_in Hrun; try discriminate.
    assert (r2 = 0) as -> by (injection Hrun as -> _; reflexivity).
    pose proof (upload_loop_journal _ _ 0 _ _ (Z.le_refl 0) Hloop)
      as (Hcalls2 & Hall & _).
    simpl in Hcalls2, Hall. fold groups in Hcalls2, Hall.
    assert (concat groups = take (Z.to_nat (w * (h / 8))) pixel_bits) as Hcat.
    { subst groups. rewrite groups_of_4_concat. f_equal. lia. }
    injection Hrun as <-.
    split; [exact Hlen|]. split.
    { simpl. rewrite Hcalls2, Hcalls, <- app_assoc. reflexivity. }
    split; [exact Hall|]. split; [exact Hcat|]. split.
    { rewrite (concat_groups_length groups Hall). subst groups.
      rewrite groups_of_4_count. lia. }
    split; [exact Height|]. split.
    + intros Hcap. subst header. do 3 f_equal.
      * apply Z.mod_small. split; [apply Z.div_pos; lia|].
        apply Z.div_lt_upper_bound; lia.
      * f_equal. apply Z.mod_small. split; [apply Z.div_pos; lia|].
        apply Z.div_lt_upper_bound; lia.
    + intros Hnet.
      apply escpos_printer_raw_wire in Hraw as (_ & Hwire1 & _);
        [|exact Hnet].
      apply upload_loop_wire in Hloop; [|lia | rewrite Hnet1; exact Hnet].
      simpl in Hloop. fold groups in Hloop.
      rewrite take_ge in Hwire1 by lia.
      simpl. rewrite Hloop, Hwire1, <- app_assoc. reflexivity.
  - injection Hrun as -> _. contradiction.
Qed.

Lemma escpos_printer_upload_frames_witness :
  exists st',
    escpos_printer_upload printer64 (connected net_reliable)
      (replicate 128 85) 32 32 = Done (0, st')
    /\ let header :=
         strncpy (ESCPOS_CMD_DEFINE_DL_BIT_IMAGE printer64) 2
         ++ [32 / 8 mod 256; 32 / 8 mod 256] in
       let groups := groups_of_4 (Z.to_nat (32 * (32 / 8) / 4)) (replicate 128 85) in
       length header = 4%nat
       /\ raw_calls st' = raw_calls (connected net_reliable) ++ header :: groups
       /\ Forall (fun g => length g = 4%nat) groups
       /\ concat groups = take (Z.to_nat (32 * (32 / 8))) (replicate 128 85)
       /\ Z.of_nat (length (concat groups)) = 32 * (32 / 8)
       /\ 32 * (32 / 8) = 8 * (32 / 8 * (32 / 8))
       /\ (ESCPOS_CHUNK_DOT_HEIGHT printer64 < 2048 ->
           header = strncpy (ESCPOS_CMD_DEFINE_DL_BIT_IMAGE printer64) 2
                    ++ [32 / 8; 32 / 8])
       /\ ((forall n, exists k,
              net (connected net_reliable) n = SendAccept k /\ 4 <= Z.pos k) ->
           wire st' = wire (connected net_reliable) ++ header ++ concat groups).
Proof.
  eexists. split.
  - vm_compute. reflexivity.
  - apply (escpos_printer_upload_frames printer64 (connected net_reliable)).
    vm_compute. reflexivity.
Defined.

(** The data of a successful upload is not (w/8)*(h/8) bytes long: a bitmap
    of 32 x 32 dots is sent as 128 bytes of data, not 16. *)
Lemma escpos_printer_upload_not_w8_times_h8 :
  ~ (forall (K : constants) (st st' : world) (pixel_bits : list Z) (w h : Z),
       escpos_printer_upload K st pixel_bits w h = Done (0, st') ->
       exists groups,
         raw_calls st'
         = raw_calls st
           ++ (strncpy (ESCPOS_CMD_DEFINE_DL_BIT_IMAGE K) 2 ++ [w / 8; h / 8])
              :: groups
         /\ Z.of_nat (length (concat groups)) = w / 8 * (h / 8)).
Proof.
  intros Hclaim.
  assert (exists st',
            escpos_printer_upload printer64 (connected net_reliable)
              (replicate 128 85) 32 32 = Done (0, st')
            /\ length (concat (drop 1 (raw_calls st'))) = 128%nat)
    as (st' & Hrun & Hlen)
    by (eexists; split; vm_compute; reflexivity).
  apply Hclaim in Hrun as (groups & Hcalls & Hcount).
  rewrite Hcalls in Hlen. change (length (concat groups) = 128%nat) in Hlen.
  rewrite Hlen in Hcount. vm_compute in Hcount. discriminate Hcount.
Qed.

(** ** Upload and print: termination and journal *)

Lemma upload_loop_ops (pixel_bits : list Z) (n : nat) :
  forall (i : Z) (st : world),
    within_fuel (upload_loop n i st pixel_bits)
    /\ forall r st', upload_loop n i st pixel_bits = Done (r, st') ->
                     ops st' = ops st.
Proof.
  induction n as [|n IH]; intros i st; simpl.
  - split; [discriminate|]. intros r st' [= _ <-]. reflexivity.
  - pose proof (escpos_printer_raw_within_fuel st
                  (drop (Z.to_nat (i * 4)) pixel_bits) 4) as Hfuel.
    destruct (escpos_printer_raw st (drop (Z.to_nat (i * 4)) pixel_bits) 4)
      as [[r1 st1]| |] eqn:Hraw; run;
      [|split; [discriminate | intros ? ? [=]] | contradiction Hfuel; reflexivity].
    apply escpos_printer_raw_journal in Hraw as (_ & Hops & _).
    destruct (r1 =? 0); run.
    + destruct (IH (i + 1) st1) as [Hf Hd]. split; [exact Hf|].
      intros r st' Hrun. rewrite (Hd r st' Hrun). exact Hops.
    + split; [discriminate|]. intros r st' [= _ <-]. exact Hops.
Qed.

Lemma escpos_printer_upload_ops (K : constants) (st : world)
    (pixel_bits : list Z) (w h : Z) :
  within_fuel (escpos_printer_upload K st pixel_bits w h)
  /\ forall r st',
       escpos_printer_upload K st pixel_bits w h = Done (r, st') ->
       ops st' = ops st ++ [OpUpload r]
       /\ (r <> 0 -> last_error st' = ESCPOS_ERROR_IMAGE_UPLOAD_FAILED).
Proof.
  unfold escpos_printer_upload.
  destruct ((w >? 0) && (w <=? ESCPOS_CHUNK_DOT_HEIGHT K)); run;
    [|split; [discriminate | intros ? ? [=]]].
  destruct ((h >? 0) && (h <=? ESCPOS_CHUNK_DOT_HEIGHT K)); run;
    [|split; [discriminate | intros ? ? [=]]].
  destruct (Z.rem w 32 =? 0); run; [|split; [discriminate | intros ? ? [=]]].
  destruct (Z.rem h 32 =? 0); run; [|split; [discriminate | intros ? ? [=]]].
  set (buffer := strncpy (ESCPOS_CMD_DEFINE_DL_BIT_IMAGE K) 2 ++ _).
  pose proof (escpos_printer_raw_within_fuel st buffer 4) as Hfuel.
  destruct (escpos_printer_raw st buffer 4) as [[r1 st1]| |] eqn:Hraw; run;
    [|split; [discriminate | intros ? ? [=]] | contradiction Hfuel; reflexivity].
  apply escpos_printer_raw_journal in Hraw as (_ & Hops & _).
  destruct (Z.eqb_spec r1 0) as [->|Hr1]; run.
  - set (n := Z.to_nat _).
    destruct (upload_loop_ops pixel_bits n 0 st1) as [Hf Hd].
    destruct (upload_loop n 0 st1 pixel_bits) as [[r2 st2]| |]; run;
      [|split; [discriminate | intros ? ? [=]] | contradiction Hf; reflexivity].
    specialize (Hd r2 st2 eq_refl).
    split; [discriminate|]. intros r st' [= <- <-]. simpl.
    destruct (Z.eqb_spec r2 0) as [->|Hr2]; simpl.
    + split; [congruence | intros Hne; contradiction].
    + split; [congruence | reflexivity].
  - split; [discriminate|]. intros r st' [= <- <-]. simpl.
    destruct (Z.eqb_spec r1 0) as [|_]; [contradiction|]. simpl.
    split; [congruence | reflexivity].
Qed.

Lemma escpos_printer_print_ops (K : constants) (st : world) :
  within_fuel (escpos_printer_print K st)
  /\ forall r st',
       escpos_printer_print K st = Done (r, st') ->
       ops st' = ops st ++ [OpPrint r]
       /\ (r <> 0 -> last_error st' = ESCPOS_ERROR_IMAGE_PRINT_FAILED).
Proof.
  unfold escpos_printer_print.
  pose proof (escpos_printer_raw_within_fuel st
                (ESCPOS_CMD_PRINT_DL_BIT_IMAGE K) 3) as Hfuel.
  destruct (escpos_printer_raw st (ESCPOS_CMD_PRINT_DL_BIT_IMAGE K) 3)
    as [[r1 st1]| |] eqn:Hraw; run;
    [|split; [discriminate | intros ? ? [=]] | contradiction Hfuel; reflexivity].
  apply escpos_printer_raw_journal in Hraw as (_ & Hops & _).
  split; [discriminate|]. intros r st' [= <- <-]. simpl.
  destruct (Z.eqb_spec r1 0) as [->|Hr1]; simpl.
  - split; [congruence | intros Hne; contradiction].
  - split; [congruence | reflexivity].
Qed.

(** ** The packer: writing one dot *)

Lemma set_bit_spec (old i bit : Z) :
  0 <= i < 8 ->
  exists new,
    set_bit old i bit = Done new
    /\ 0 <= new < 256
    /\ forall j, 0 <= j < 8 ->
         Z.testbit new j = if j =? i then bit >? 0 else Z.testbit old j.
Proof.
  intros Hi. unfold set_bit.
  destruct (Z.geb_spec i 0) as [_|]; [|lia].
  destruct (Z.ltb_spec i 8) as [_|]; [|lia]. run.
  change 256 with (2 ^ 8).
  destruct (bit >? 0); eexists; (split; [reflexivity|]);
    (split; [apply Z.mod_pos_bound; lia|]);
    intros j Hj; rewrite Z.mod_pow2_bits_low by lia.
  - rewrite Z.lor_spec, Z.shiftl_1_l, Z.pow2_bits_eqb by lia.
    rewrite (Z.eqb_sym i j). destruct (j =? i).
    + apply orb_true_r.
    + apply orb_false_r.
  - rewrite Z.land_spec, Z.lnot_spec, Z.shiftl_1_l, Z.pow2_bits_eqb by lia.
    rewrite (Z.eqb_sym i j). destruct (j =? i); simpl.
    + apply andb_false_r.
    + apply andb_true_r.
Qed.

Lemma cell_of_dot (m : Z) :
  0 <= m ->
  Z.quot m 8 = m / 8 /\ Z.rem m 8 = m mod 8
  /\ 0 <= m / 8 /\ 0 <= 7 - m mod 8 < 8
  /\ m = 8 * (m / 8) + m mod 8.
Proof.
  intros Hm.
  rewrite Z.quot_div_nonneg, Z.rem_mod_nonneg by lia.
  pose proof (Z.mod_pos_bound m 8 ltac:(lia)).
  pose proof (Z.div_mod m 8 ltac:(lia)).
  pose proof (Z.div_pos m 8 Hm ltac:(lia)).
  repeat split; lia.
Qed.

Lemma for_range_inv {S : Type} (I : Z -> S -> Prop)
    (body : Z -> S -> result S) (n : nat) :
  forall (lo : Z) (s : S),
    I lo s ->
    (forall i s, lo <= i < lo + Z.of_nat n -> I i s ->
                 exists s', body i s = Done s' /\ I (i + 1) s') ->
    exists s', for_range lo n body s = Done s' /\ I (lo + Z.of_nat n) s'.
Proof.
  induction n as [|n IH]; intros lo s Hinit Hstep; simpl for_range.
  - exists s. rewrite Z.add_0_r. auto.
  - destruct (Hstep lo s ltac:(lia) Hinit) as (s1 & -> & H1). run.
    destruct (IH (lo + 1) s1 H1) as (s' & Hrun & Hend).
    { intros i s2 Hi. apply Hstep. lia. }
    exists s'. split; [exact Hrun|].
    replace (lo + Z.of_nat (Datatypes.S n)) with (lo + 1 + Z.of_nat n) by lia.
    exact Hend.
Qed.

(** ** The packer: writing the columns *)

(** The dots are written in the order of their index.  [e] gives the value
    each dot is to receive and [bits0] is the buffer before the first
    write. *)
Section Packing.
Variable e : Z -> bool.
Variable bits0 : list Z.

Lemma packed_upto_start : packed_upto e bits0 bits0 0.
Proof.
  split; [reflexivity|]. split; [intros pj Hpj; lia|].
  split; [reflexivity | intros k Hk; lia].
Qed.

Lemma store_bit_packed (bits : list Z) (m bit : Z) :
  packed_upto e bits0 bits m ->
  0 <= m -> m < 8 * Z.of_nat (length bits0) ->
  (bit >? 0) = e m ->
  exists bits',
    store_bit bits (Z.quot m 8) (7 - Z.rem m 8) bit = Done bits'
    /\ packed_upto e bits0 bits' (m + 1).
Proof.
  intros (Hlen & Hdots & Hrest & Hrange) Hm Hroom Hbit.
  destruct (cell_of_dot m Hm) as (-> & -> & Hq & Hi & Hsplit).
  set (k := Z.to_nat (m / 8)).
  assert (k < length bits)%nat as Hk by (subst k; lia).
  destruct (lookup_lt_is_Some_2 bits k Hk) as [old Hold].
  unfold store_bit, deref.
  destruct (Z.ltb_spec (m / 8) 0) as [|_]; [lia|].
  fold k. rewrite Hold. run.
  destruct (set_bit_spec old (7 - m mod 8) bit Hi) as (new & -> & Hnew & Hbits).
  run. eexists. split; [reflexivity|].
  assert (forall pj, 0 <= pj -> pj <> m ->
            pixel_at (<[k:=new]> bits) pj = pixel_at bits pj) as Hframe.
  { intros pj Hpj Hne. unfold pixel_at.
    destruct (cell_of_dot pj Hpj) as (_ & _ & Hqj & Hij & Hsplitj).
    destruct (decide (Z.to_nat (pj / 8) = k)) as [Heq|Hneq].
    - rewrite Heq, list_lookup_insert_eq, Hold by exact Hk. simpl.
      rewrite (Hbits _ Hij).
      destruct (Z.eqb_spec (7 - pj mod 8) (7 - m mod 8)) as [Hsame|_];
        [|reflexivity].
      subst k. lia.
    - rewrite list_lookup_insert_ne by congruence. reflexivity. }
  split; [rewrite length_insert; exact Hlen|]. split; [|split].
  - intros pj Hpj. destruct (Z.eq_dec pj m) as [->|Hne].
    + unfold pixel_at. fold k.
      rewrite list_lookup_insert_eq by exact Hk. simpl.
      rewrite (Hbits _ Hi), Z.eqb_refl. exact Hbit.
    + rewrite Hframe by lia. apply Hdots. lia.
  - intros k' Hk'. rewrite list_lookup_insert_ne by (subst k; lia).
    apply Hrest. lia.
  - intros k' Hk'. destruct (decide (k' = k)) as [->|Hneq].
    + exists new. rewrite list_lookup_insert_eq by exact Hk. auto.
    + rewrite list_lookup_insert_ne by congruence. apply Hrange.
      subst k. lia.
Qed.

Lemma columns_packed (Hp c0 n : Z)
    (body : Z -> Z -> list Z -> result (list Z)) :
  0 <= c0 -> 0 <= n -> 0 <= Hp ->
  (c0 + n) * Hp <= 8 * Z.of_nat (length bits0) ->
  (forall x y bits, 0 <= x < n -> 0 <= y < Hp ->
     exists bit,
       (bit >? 0) = e ((c0 + x) * Hp + y)
       /\ body x y bits
          = store_bit bits (Z.quot ((c0 + x) * Hp + y) 8)
              (7 - Z.rem ((c0 + x) * Hp + y) 8) bit) ->
  forall bits,
    packed_upto e bits0 bits (c0 * Hp) ->
    exists bits',
      for_range 0 (Z.to_nat n)
        (fun x => for_range 0 (Z.to_nat Hp) (body x)) bits = Done bits'
      /\ packed_upto e bits0 bits' ((c0 + n) * Hp).
Proof.
  intros Hc0 Hn HHp Hroom Hbody bits Hinit.
  destruct (for_range_inv
              (fun x b => packed_upto e bits0 b ((c0 + x) * Hp))
              (fun x => for_range 0 (Z.to_nat Hp) (body x))
              (Z.to_nat n) 0 bits) as (bits' & Hrun & Hend).
  - rewrite Z.add_0_r. exact Hinit.
  - intros x b Hx Hcol.
    destruct (for_range_inv
                (fun y b' => packed_upto e bits0 b' ((c0 + x) * Hp + y))
                (body x) (Z.to_nat Hp) 0 b) as (b' & Hrun & Hend).
    + rewrite Z.add_0_r. exact Hcol.
    + intros y b1 Hy Hdot.
      destruct (Hbody x y b1 ltac:(lia) ltac:(lia)) as (bit & Hbit & ->).
      cbv beta. rewrite Z.add_assoc.
      apply store_bit_packed; [exact Hdot | nia | nia | exact Hbit].
    + exists b'. split; [exact Hrun|].
      replace ((c0 + (x + 1)) * Hp)
        with ((c0 + x) * Hp + (0 + Z.of_nat (Z.to_nat Hp))) by lia.
      exact Hend.
  - exists bits'. split; [exact Hrun|].
    replace (c0 + n) with (c0 + (0 + Z.of_nat (Z.to_nat n))) by lia.
    exact Hend.
Qed.

End Packing.

Lemma dot_of_cell (Hp c y : Z) :
  0 <= y < Hp ->
  (c * Hp + y) / Hp = c /\ (c * Hp + y) mod Hp = y.
Proof.
  intros Hy. split.
  - rewrite Z.div_add_l by lia. rewrite Z.div_small by lia. lia.
  - rewrite Z.add_comm, Z.mod_add by lia. apply Z.mod_small. lia.
Qed.

Lemma convert_to_bit_in_bounds (image_data : list Z) (c off : Z) :
  c = 1 \/ c = 2 \/ c = 3 \/ c = 4 ->
  0 <= off ->
  off + c <= Z.of_nat (length image_data) ->
  exists bit,
    convert_to_bit (drop (Z.to_nat off) image_data) c = Done bit
    /\ (bit = 0 \/ bit = 1).
Proof.
  intros Hc Hoff Hlen.
  assert (forall i, 0 <= i < c ->
            exists v, deref (drop (Z.to_nat off) image_data) i = Done v)
    as Hread.
  { intros i Hi. unfold deref.
    destruct (Z.ltb_spec i 0) as [|_]; [lia|].
    rewrite lookup_drop.
    destruct (lookup_lt_is_Some_2 image_data (Z.to_nat off + Z.to_nat i))
      as [v Hv]; [lia|].
    rewrite Hv. eauto. }
  assert (forall b : bool, (if b then 1 else 0) = 0 \/ (if b then 1 else 0) = 1)
    as Hbool by (intros []; auto).
  unfold convert_to_bit.
  destruct Hc as [-> | [-> | [-> | ->] ] ]; simpl assert; run; simpl orb; cbv iota.
  - destruct (Hread 0 ltac:(lia)) as (p & ->). run. eauto.
  - destruct (Hread 0 ltac:(lia)) as (p & ->). run. eauto.
  - destruct (Hread 0 ltac:(lia)) as (r & ->).
    destruct (Hread 1 ltac:(lia)) as (g & ->).
    destruct (Hread 2 ltac:(lia)) as (b & ->). run. eauto.
  - destruct (Hread 0 ltac:(lia)) as (r & ->).
    destruct (Hread 1 ltac:(lia)) as (g & ->).
    destruct (Hread 2 ltac:(lia)) as (b & ->). run. eauto.
Qed.

(** ** The packer: layout of the bitmap and reads of the image *)

Lemma convert_image_to_bits_packed (pixel_bits image_data : list Z)
    (w h c : Z) :
  1 <= w -> 1 <= h ->
  c = 1 \/ c = 2 \/ c = 3 \/ c = 4 ->
  w * h * c <= Z.of_nat (length image_data) ->
  let padding_l := fst (calculate_padding w) in
  let padding_r := snd (calculate_padding w) in
  let padding_b := snd (calculate_padding h) + fst (calculate_padding h) in
  let Wp := w + padding_l + padding_r in
  let Hp := h + padding_b in
  Wp * Hp <= 8 * Z.of_nat (length pixel_bits) ->
  exists bits',
    convert_image_to_bits pixel_bits image_data w h c = Done (bits', Wp, Hp)
    /\ packed_upto
         (fun pj => expected_pixel image_data w h c padding_l (pj / Hp) (pj mod Hp))
         pixel_bits bits' (Wp * Hp).
Proof.
  intros Hw Hh Hc Himg padding_l padding_r padding_b Wp Hp Hroom.
  destruct (calculate_padding_nonneg w Hw) as [Hl0 Hr0].
  destruct (calculate_padding_nonneg h Hh) as [Ht0 Hb0].
  fold padding_l in Hl0. fold padding_r in Hr0.
  assert (1 <= Hp) as HHp by (subst Hp padding_b; lia).
  unfold convert_image_to_bits.
  destruct (calculate_padding w) as [l r] eqn:Ew.
  destruct (calculate_padding h) as [t b] eqn:Eh.
  cbn [fst snd] in *. subst padding_l padding_r padding_b.
  set (e := fun pj => expected_pixel image_data w h c l (pj / Hp) (pj mod Hp)).
  fold Hp.
  (* left padding *)
  destruct (columns_packed e pixel_bits Hp 0 l
              (fun x y pixel_bits =>
                 let pi := x * Hp + y in
                 let curr_byte := Z.quot pi 8 in
                 store_bit pixel_bits curr_byte (7 - Z.rem pi 8) 0))
    with (bits := pixel_bits) as (bits1 & Hrun1 & Hinv1);
    [lia | lia | lia | nia | | apply packed_upto_start |].
  { intros x y bits Hx Hy. exists 0. cbv zeta. rewrite Z.add_0_l.
    split; [|reflexivity].
    subst e. cbv beta. destruct (dot_of_cell Hp x y Hy) as [-> ->].
    unfold expected_pixel.
    destruct (Z.leb_spec l x) as [|_]; [lia | reflexivity]. }
  cbv zeta in Hrun1. rewrite Hrun1. run.
  (* image columns *)
  destruct (columns_packed e pixel_bits Hp l w
              (fun x y pixel_bits =>
                 let pi := l * Hp + x * Hp + y in
                 let curr_byte := Z.quot pi 8 in
                 bit ← (if y <? h
                        then convert_to_bit
                               (drop (Z.to_nat (y * w * c + x * c)) image_data) c
                        else Done 0);
                 store_bit pixel_bits curr_byte (7 - Z.rem pi 8) bit))
    with (bits := bits1) as (bits2 & Hrun2 & Hinv2);
    [lia | lia | lia | nia | | rewrite Z.add_0_l in Hinv1; exact Hinv1 |].
  { intros x y bits Hx Hy. cbv zeta.
    replace (l * Hp + x * Hp + y) with ((l + x) * Hp + y) by lia.
    subst e. cbv beta. destruct (dot_of_cell Hp (l + x) y Hy) as [-> ->].
    unfold expected_pixel.
    destruct (Z.leb_spec l (l + x)) as [_|]; [|lia].
    destruct (Z.ltb_spec (l + x) (l + w)) as [_|]; [|lia].
    replace (l + x - l) with x by lia. cbn [andb].
    destruct (Z.ltb_spec y h) as [Hy'|Hy'].
    - destruct (convert_to_bit_in_bounds image_data c (y * w * c + x * c))
        as (bit & -> & _); [exact Hc | nia | nia |].
      exists bit. split; reflexivity.
    - exists 0. split; reflexivity. }
  cbv zeta in Hrun2. rewrite Hrun2. run.
  (* right padding *)
  destruct (columns_packed e pixel_bits Hp (l + w) r
              (fun x y pixel_bits =>
                 let pi := l * Hp + w * Hp + x * Hp + y in
                 let curr_byte := Z.quot pi 8 in
                 store_bit pixel_bits curr_byte (7 - Z.rem pi 8) 0))
    with (bits := bits2) as (bits3 & Hrun3 & Hinv3);
    [lia | lia | lia | subst Wp; nia | | exact Hinv2 |].
  { intros x y bits Hx Hy. exists 0. cbv zeta.
    replace (l * Hp + w * Hp + x * Hp + y) with ((l + w + x) * Hp + y) by lia.
    split; [|reflexivity].
    subst e. cbv beta. destruct (dot_of_cell Hp (l + w + x) y Hy) as [-> ->].
    unfold expected_pixel.
    destruct (Z.leb_spec l (l + w + x)) as [_|]; [|lia].
    destruct (Z.ltb_spec (l + w + x) (l + w)) as [|_]; [lia | reflexivity]. }
  cbv zeta in Hrun3. rewrite Hrun3. run.
  exists bits3. split; [reflexivity|].
  replace (Wp * Hp) with ((l + w + r) * Hp) by (subst Wp; lia).
  exact Hinv3.
Qed.

Lemma dot_in_column (Hp x y : Z) :
  Hp mod 8 = 0 -> 0 <= y < Hp ->
  (x * Hp + y) / 8 = x * (Hp / 8) + y / 8
  /\ (x * Hp + y) mod 8 = y mod 8.
Proof.
  intros H8 Hy.
  pose proof (Z.div_mod Hp 8 ltac:(lia)) as HHp. rewrite H8 in HHp.
  replace (x * Hp + y) with (y + (x * (Hp / 8)) * 8) by lia.
  rewrite Z.div_add, Z.mod_add by lia. lia.
Qed.

Lemma aligned_mod_8 (n : Z) : n mod 32 = 0 -> n mod 8 = 0.
Proof.
  intros H32. pose proof (Z.div_mod n 32 ltac:(lia)) as Hn.
  rewrite H32 in Hn.
  replace n with (0 + (4 * (n / 32)) * 8) by lia.
  rewrite Z.mod_add by lia. reflexivity.
Qed.

(** C7.  For an image of w >= 1 by h >= 1 dots with 1 to 4 components the
    packer returns the dimensions Wp = w + left + right and
    Hp = h + (top + bottom), both multiples of 32, and a buffer in which
    exactly the first Wp*Hp/8 bytes are written.  The dot of column x and row
    y is bit 7 - (y mod 8) of byte x*(Hp/8) + y/8: the columns follow one
    another, each with its Hp rows from top to bottom, most significant bit
    first.  The rows 0 .. h-1 of the columns left .. left+w-1 hold the
    samples of the image; the other columns and all the rows from h on, that
    is the whole height padding, are blank. *)
Theorem convert_image_to_bits_layout (pixel_bits image_data : list Z)
    (w h c : Z) :
  1 <= w -> 1 <= h ->
  c = 1 \/ c = 2 \/ c = 3 \/ c = 4 ->
  w * h * c <= Z.of_nat (length image_data) ->
  let padding_l := fst (calculate_padding w) in
  let padding_r := snd (calculate_padding w) in
  let padding_t := fst (calculate_padding h) in
  let padding_b := snd (calculate_padding h) in
  let Wp := w + padding_l + padding_r in
  let Hp := h + (padding_b + padding_t) in
  Wp * Hp <= 8 * Z.of_nat (length pixel_bits) ->
  Wp mod 32 = 0 /\ Hp mod 32 = 0
  /\ exists bits',
       convert_image_to_bits pixel_bits image_data w h c = Done (bits', Wp, Hp)
       /\ length bits' = length pixel_bits
       /\ (forall k : nat, Z.of_nat k < Wp * Hp / 8 ->
             exists v, bits' !! k = Some v /\ 0 <= v < 256)
       /\ (forall k : nat, Wp * Hp / 8 <= Z.of_nat k ->
             bits' !! k = pixel_bits !! k)
       /\ (forall x y, 0 <= x < Wp -> 0 <= y < Hp ->
             pixel_at bits' (x * Hp + y)
             = Z.testbit (default 0 (bits' !! Z.to_nat (x * (Hp / 8) + y / 8)))
                 (7 - y mod 8))
       /\ (forall x y, 0 <= x < w -> 0 <= y < h ->
             convert_to_bit
               (drop (Z.to_nat (y * w * c + x * c)) image_data) c
             = Done (Z.b2z (pixel_at bits' ((padding_l + x) * Hp + y))))
       /\ (forall x y, 0 <= x < Wp -> 0 <= y < Hp ->
             x < padding_l \/ padding_l + w <= x \/ h <= y ->
             pixel_at bits' (x * Hp + y) = false).
Proof.
  intros Hw Hh Hc Himg.
  pose proof (convert_image_to_bits_packed pixel_bits image_data w h c
                Hw Hh Hc Himg) as Hpack.
  pose proof (calculate_padding_aligned w Hw) as HWp.
  pose proof (calculate_padding_aligned h Hh) as HHp.
  destruct (calculate_padding_nonneg w Hw) as [Hl0 Hr0].
  destruct (calculate_padding_nonneg h Hh) as [Ht0 Hb0].
  replace (h + fst (calculate_padding h) + snd (calculate_padding h))
    with (h + (snd (calculate_padding h) + fst (calculate_padding h)))
    in HHp by lia.
  cbv zeta in Hpack |- *.
  set (padding_l := fst (calculate_padding w)) in *.
  set (padding_r := snd (calculate_padding w)) in *.
  set (padding_t := fst (calculate_padding h)) in *.
  set (padding_b := snd (calculate_padding h)) in *.
  set (Wp := w + padding_l + padding_r) in *.
  set (Hp := h + (padding_b + padding_t)) in *.
  intros Hroom.
  assert (1 <= Hp) as Hp1 by (subst Hp; lia).
  assert (1 <= Wp) as Wp1 by (subst Wp; lia).
  pose proof (aligned_mod_8 Hp HHp) as HHp8.
  assert (Wp * Hp = 8 * (Wp * Hp / 8)) as Harea.
  { pose proof (Z.div_mod Hp 8 ltac:(lia)) as H8. rewrite HHp8 in H8.
    replace (Wp * Hp) with ((Wp * (Hp / 8)) * 8) at 2 by lia.
    rewrite Z.div_mul by lia. lia. }
  split; [exact HWp|]. split; [exact HHp|].
  destruct (Hpack Hroom) as (bits' & Hrun & Hlen & Hdots & Hrest & Hrange).
  exists bits'. split; [exact Hrun|]. split; [exact Hlen|].
  split; [intros k Hk; apply Hrange; lia|].
  split; [intros k Hk; apply Hrest; lia|].
  split; [|split].
  - intros x y Hx Hy. unfold pixel_at.
    destruct (dot_in_column Hp x y HHp8 Hy) as [-> ->]. reflexivity.
  - intros x y Hx Hy.
    rewrite (Hdots ((padding_l + x) * Hp + y)) by nia. cbv beta.
    destruct (dot_of_cell Hp (padding_l + x) y ltac:(lia)) as [-> ->].
    unfold expected_pixel.
    destruct (Z.leb_spec padding_l (padding_l + x)) as [_|]; [|lia].
    destruct (Z.ltb_spec (padding_l + x) (padding_l + w)) as [_|]; [|lia].
    destruct (Z.ltb_spec y h) as [_|]; [|lia]. cbn [andb].
    replace (padding_l + x - padding_l) with x by lia.
    destruct (convert_to_bit_in_bounds image_data c (y * w * c + x * c))
      as (bit & -> & [-> | ->]); [exact Hc | nia | nia | reflexivity..].
  - intros x y Hx Hy Hpad.
    rewrite (Hdots (x * Hp + y)) by nia. cbv beta.
    destruct (dot_of_cell Hp x y Hy) as [-> ->].
    unfold expected_pixel.
    destruct (Z.leb_spec padding_l x); [|reflexivity].
    destruct (Z.ltb_spec x (padding_l + w)); [|reflexivity].
    destruct (Z.ltb_spec y h); [lia | reflexivity].
Qed.

Lemma convert_image_to_bits_layout_witness :
  let pixel_bits := replicate 128 255 in
  let padding_l := fst (calculate_padding 2) in
  let padding_r := snd (calculate_padding 2) in
  let padding_t := fst (calculate_padding 2) in
  let padding_b := snd (calculate_padding 2) in
  let Wp := 2 + padding_l + padding_r in
  let Hp := 2 + (padding_b + padding_t) in
  Wp mod 32 = 0 /\ Hp mod 32 = 0
  /\ exists bits',
       convert_image_to_bits pixel_bits two_by_two 2 2 1 = Done (bits', Wp, Hp)
       /\ length bits' = length pixel_bits
       /\ (forall k : nat, Z.of_nat k < Wp * Hp / 8 ->
             exists v, bits' !! k = Some v /\ 0 <= v < 256)
       /\ (forall k : nat, Wp * Hp / 8 <= Z.of_nat k ->
             bits' !! k = pixel_bits !! k)
       /\ (forall x y, 0 <= x < Wp -> 0 <= y < Hp ->
             pixel_at bits' (x * Hp + y)
             = Z.testbit (default 0 (bits' !! Z.to_nat (x * (Hp / 8) + y / 8)))
                 (7 - y mod 8))
       /\ (forall x y, 0 <= x < 2 -> 0 <= y < 2 ->
             convert_to_bit
               (drop (Z.to_nat (y * 2 * 1 + x * 1)) two_by_two) 1
             = Done (Z.b2z (pixel_at bits' ((padding_l + x) * Hp + y))))
       /\ (forall x y, 0 <= x < Wp -> 0 <= y < Hp ->
             x < padding_l \/ padding_l + 2 <= x \/ 2 <= y ->
             pixel_at bits' (x * Hp + y) = false).
Proof.
  apply (convert_image_to_bits_layout (replicate 128 255) two_by_two 2 2 1).
  - lia.
  - lia.
  - left. reflexivity.
  - vm_compute. discriminate.
  - vm_compute. discriminate.
Defined.

Lemma byte_bits_above (v n : Z) :
  0 <= v < 256 -> 8 <= n -> Z.testbit v n = false.
Proof.
  intros Hv Hn. rewrite <- (Z.mod_small v (2 ^ 8)) by (change (2 ^ 8) with 256; lia).
  apply Z.mod_pow2_bits_high. lia.
Qed.





(** The packed bytes of the 2 x 2 image: the two dark dots of its left
    column are the two most significant bits of byte 60, the first byte of
    column 15; everything else is blank. *)
Example convert_image_to_bits_two_by_two :
  convert_image_to_bits (replicate 128 255) two_by_two 2 2 1
  = Done (<[60%nat := 192]> (replicate 128 0), 32, 32).
Proof. vm_compute. reflexivity. Qed.

(** ** The packer: termination *)

Lemma for_range_within_fuel {S : Type} (body : Z -> S -> result S) (n : nat) :
  (forall i s, within_fuel (body i s)) ->
  forall lo s, within_fuel (for_range lo n body s).
Proof.
  intros Hbody. induction n as [|n IH]; intros lo s; simpl.
  - discriminate.
  - apply within_fuel_bind; [apply Hbody | intros; apply IH].
Qed.

Lemma store_bit_within_fuel (pixel_bits : list Z) (curr_byte i bit : Z) :
  within_fuel (store_bit pixel_bits curr_byte i bit).
Proof.
  unfold store_bit, deref, set_bit, assert, within_fuel.
  destruct (curr_byte <? 0); run; [discriminate|].
  destruct (pixel_bits !! Z.to_nat curr_byte); run; [|discriminate].
  destruct ((i >=? 0) && (i <? 8)); run; [|discriminate].
  destruct (bit >? 0); run; discriminate.
Qed.

Lemma convert_to_bit_within_fuel (pixel : list Z) (c : Z) :
  within_fuel (convert_to_bit pixel c).
Proof.
  unfold convert_to_bit, deref, assert, within_fuel.
  destruct (c >? 0); run; [|discriminate].
  destruct ((c =? ESCPOS_COMP_G) || (c =? ESCPOS_COMP_GA)).
  - simpl. destruct (pixel !! _); run; discriminate.
  - destruct ((c =? ESCPOS_COMP_RGB) || (c =? ESCPOS_COMP_RGBA));
      [|discriminate].
    simpl. destruct (pixel !! Z.to_nat 0); run; [|discriminate].
    destruct (pixel !! Z.to_nat 1); run; [|discriminate].
    destruct (pixel !! Z.to_nat 2); run; discriminate.
Qed.

Lemma convert_image_to_bits_within_fuel (pixel_bits image_data : list Z)
    (w h c : Z) :
  within_fuel (convert_image_to_bits pixel_bits image_data w h c).
Proof.
  unfold convert_image_to_bits.
  destruct (calculate_padding w) as [padding_l padding_r].
  destruct (calculate_padding h) as [padding_t padding_b].
  apply within_fuel_bind.
  { apply for_range_within_fuel. intros x s.
    apply for_range_within_fuel. intros y s'. apply store_bit_within_fuel. }
  intros bits1 _. apply within_fuel_bind.
  { apply for_range_within_fuel. intros x s.
    apply for_range_within_fuel. intros y s'.
    apply within_fuel_bind; [|intros; apply store_bit_within_fuel].
    destruct (y <? h); [apply convert_to_bit_within_fuel | discriminate]. }
  intros bits2 _. apply within_fuel_bind.
  { apply for_range_within_fuel. intros x s.
    apply for_range_within_fuel. intros y s'. apply store_bit_within_fuel. }
  intros bits3 _. discriminate.
Qed.

(** ** The orchestrator: chunk height *)

(** With any positive overlap margin smaller than the chunk capacity, an
    image one row taller than a chunk reaches cursor 1 with a chunk height
    of 1, where the minimum of the capacity and the rows left is
    1 + overlap. *)
Lemma chunk_height_ignores_overlap (K : constants) :
  0 < ESCPOS_CHUNK_OVERLAP K < ESCPOS_CHUNK_DOT_HEIGHT K ->
  let H := ESCPOS_CHUNK_DOT_HEIGHT K + 1 in
  1 * print_height K < H
  /\ chunk_height K H 1 = 1
  /\ Z.min (ESCPOS_CHUNK_DOT_HEIGHT K) (H - 1 * print_height K)
     = 1 + ESCPOS_CHUNK_OVERLAP K.
Proof.
  intros Ho H. subst H. unfold chunk_height, print_height.
  split; [lia|]. split.
  - destruct (Z.leb_spec ((1 + 1) * ESCPOS_CHUNK_DOT_HEIGHT K)
                (ESCPOS_CHUNK_DOT_HEIGHT K + 1)); lia.
  - lia.
Qed.

(** With any positive overlap margin an image of exactly one chunk reaches
    cursor 1 with a chunk height of 0. *)
Lemma chunk_height_zero (K : constants) :
  0 < ESCPOS_CHUNK_OVERLAP K < ESCPOS_CHUNK_DOT_HEIGHT K ->
  1 * print_height K < ESCPOS_CHUNK_DOT_HEIGHT K
  /\ chunk_height K (ESCPOS_CHUNK_DOT_HEIGHT K) 1 = 0.
Proof.
  intros Ho. unfold chunk_height, print_height. split; [lia|].
  destruct (Z.leb_spec ((1 + 1) * ESCPOS_CHUNK_DOT_HEIGHT K)
              (ESCPOS_CHUNK_DOT_HEIGHT K)); lia.
Qed.

(** Without overlap margin the chunk height is the minimum of the capacity
    and the rows left. *)
Lemma chunk_height_no_overlap (K : constants) (H y : Z) :
  ESCPOS_CHUNK_OVERLAP K = 0 ->
  chunk_height K H y
  = Z.min (ESCPOS_CHUNK_DOT_HEIGHT K) (H - y * print_height K).
Proof.
  intros Ho. unfold chunk_height, print_height. rewrite Ho.
  destruct (Z.leb_spec ((y + 1) * ESCPOS_CHUNK_DOT_HEIGHT K) H); lia.
Qed.

(** C1 (the code at a failing input).  On a printer with 64-dot chunks and
    an overlap margin of 8, an image of 65 rows enters the loop body at
    cursor 1 (56 < 65) and hands a chunk of height 1 to the packer, where
    the minimum of the capacity and the rows left is 9; an image of 64 rows
    enters the loop body at cursor 1 with a chunk of height 0, and the run
    stops on the assertion [h > 0] of the upload. *)
Theorem chunk_height_at_cursor_1 :
  (1 * print_height printer64_overlap8 <? 65) = true
  /\ chunk_height printer64_overlap8 65 1 = 1
  /\ Z.min (ESCPOS_CHUNK_DOT_HEIGHT printer64_overlap8)
           (65 - 1 * print_height printer64_overlap8) = 9
  /\ (1 * print_height printer64_overlap8 <? 64) = true
  /\ chunk_height printer64_overlap8 64 1 = 0
  /\ escpos_printer_image printer64_overlap8 (connected net_reliable)
       (Some (Image 8 64 1 (replicate 512 0))) (fun _ => 0) = Fault.
Proof. repeat split; vm_compute; reflexivity. Qed.

(** ** The orchestrator: decoding failure *)

(** C10.  When the decoder returns no image, [escpos_printer_image] returns
    0 and leaves the connection, the error variable and the journals as they
    were: nothing is sent, uploaded or printed. *)
Theorem escpos_printer_image_no_image (K : constants) (st : world)
    (stack : nat -> Z) :
  escpos_printer_image K st None stack = Done (0, st).
Proof. reflexivity. Qed.

(** ** The orchestrator: rounds *)

Lemma image_round_ops (K : constants) (st : world) (im : image)
    (bits : list Z) (y : Z) :
  within_fuel (image_round K st im bits y)
  /\ forall r st' bits',
       image_round K st im bits y = Done (r, st', bits') ->
       (r = 0 /\ ops st' = ops st ++ [OpUpload 0; OpPrint 0])
       \/ (r <> 0 /\ round_failure st r st').
Proof.
  unfold image_round.
  set (data := drop _ (image_data im)).
  pose proof (convert_image_to_bits_within_fuel bits data (width im)
                (chunk_height K (height im) y) (comp im)) as Hpack.
  destruct (convert_image_to_bits bits data (width im)
              (chunk_height K (height im) y) (comp im))
    as [[[bits1 bw] bh]| |]; run;
    [|split; [discriminate | intros ? ? ? [=]] | contradiction Hpack; reflexivity].
  destruct (escpos_printer_upload_ops K st bits1 bw bh) as [Hfu Hdu].
  destruct (escpos_printer_upload K st bits1 bw bh) as [[r1 st1]| |]; run;
    [|split; [discriminate | intros ? ? ? [=]] | contradiction Hfu; reflexivity].
  destruct (Hdu r1 st1 eq_refl) as [Hops1 Herr1].
  destruct (Z.eqb_spec r1 0) as [->|Hr1]; run.
  - destruct (escpos_printer_print_ops K st1) as [Hfp Hdp].
    destruct (escpos_printer_print K st1) as [[r2 st2]| |]; run;
      [|split; [discriminate | intros ? ? ? [=]] | contradiction Hfp; reflexivity].
    destruct (Hdp r2 st2 eq_refl) as [Hops2 Herr2].
    split; [discriminate|]. intros r st' bits' [= <- <- <-].
    rewrite Hops1, <- app_assoc in Hops2. simpl in Hops2.
    destruct (Z.eq_dec r2 0) as [->|Hr2]; [left; auto|].
    right. split; [exact Hr2|]. right. auto.
  - split; [discriminate|]. intros r st' bits' [= <- <- <-].
    right. split; [exact Hr1|]. left. auto.
Qed.

Lemma remaining_rounds (ph H y : Z) :
  0 < ph ->
  (y * ph < H ->
     Z.to_nat ((H - y * ph + ph - 1) / ph)
     = Datatypes.S (Z.to_nat ((H - (y + 1) * ph + ph - 1) / ph)))
  /\ (H <= y * ph -> Z.to_nat ((H - y * ph + ph - 1) / ph) = 0%nat).
Proof.
  intros Hph. split; intros Hy.
  - replace (H - y * ph + ph - 1) with (H - (y + 1) * ph + ph - 1 + 1 * ph)
      by lia.
    rewrite Z.div_add by lia.
    assert (0 <= (H - (y + 1) * ph + ph - 1) / ph)
      by (apply Z.div_pos; lia).
    lia.
  - assert ((H - y * ph + ph - 1) / ph <= 0); [|lia].
    assert ((H - y * ph + ph - 1) / ph < 1); [|lia].
    apply Z.div_lt_upper_bound; lia.
Qed.

Lemma rounds_journal_next (k : nat) :
  rounds_journal (Datatypes.S k)
  = [OpUpload 0; OpPrint 0] ++ rounds_journal k.
Proof. reflexivity. Qed.

Lemma image_loop_rounds (K : constants) (im : image) :
  0 < print_height K ->
  forall (fuel : nat) (y : Z) (st : world) (bits : list Z),
    let remaining :=
      Z.to_nat ((height im - y * print_height K + print_height K - 1)
                / print_height K) in
    (remaining < fuel)%nat ->
    match image_loop K fuel st im bits y with
    | Done (r, st') =>
        exists (k : nat) (st_k : world) (bits_k : list Z),
          completed_rounds K im k y (st, bits) (st_k, bits_k)
          /\ ops st_k = ops st ++ rounds_journal k
          /\ ((r = 0 /\ k = remaining /\ st' = st_k)
              \/ (r <> 0 /\ (k < remaining)%nat
                  /\ (exists bits',
                        image_round K st_k im bits_k (y + Z.of_nat k)
                        = Done (r, st', bits'))
                  /\ round_failure st_k r st'))
    | Fault => True
    | OutOfFuel => False
    end.
Proof.
  intros Hph. induction fuel as [|fuel IH]; intros y st bits remaining Hfuel;
    [lia|].
  destruct (remaining_rounds (print_height K) (height im) y Hph) as [Hgo Hstop].
  fold remaining in Hgo, Hstop. simpl.
  destruct (Z.ltb_spec (y * print_height K) (height im)) as [Hlt|Hge].
  - specialize (Hgo Hlt).
    destruct (image_round_ops K st im bits y) as [Hf Hd].
    destruct (image_round K st im bits y) as [[[r1 st1] bits1]| |] eqn:Hround;
      run; [|exact I | apply Hf; reflexivity].
    destruct (Hd r1 st1 bits1 eq_refl) as [[-> Hops]|[Hr1 Hfail]].
    + simpl. specialize (IH (y + 1) st1 bits1). cbv zeta in IH.
      specialize (IH ltac:(lia)).
      destruct (image_loop K fuel st1 im bits1 (y + 1)) as [[r st']| |];
        [|exact I | exact IH].
      destruct IH as (k & st_k & bits_k & Hrounds & Hjournal & Hend).
      exists (Datatypes.S k), st_k, bits_k.
      split; [eapply rounds_next; eassumption|].
      split.
      { rewrite Hjournal, Hops, rounds_journal_next, <- app_assoc.
        reflexivity. }
      replace (y + Z.of_nat (Datatypes.S k)) with (y + 1 + Z.of_nat k) by lia.
      destruct Hend as [(-> & -> & ->)|(Hr & Hk & Hrun & Hfail)].
      * left. auto.
      * right. split; [exact Hr|]. split; [lia|]. auto.
    + destruct (Z.eqb_spec r1 0) as [|_]; [contradiction|]. simpl.
      exists 0%nat, st, bits. split; [constructor|].
      split; [simpl; rewrite app_nil_r; reflexivity|].
      right. split; [exact Hr1|]. split; [lia|].
      rewrite Z.add_0_r. split; [eauto | exact Hfail].
  - specialize (Hstop Hge).
    exists 0%nat, st, bits. split; [constructor|].
    split; [simpl; rewrite app_nil_r; reflexivity|].
    left. auto.
Qed.

Lemma chunk_count_ceiling (K : constants) (H : Z) :
  0 < print_height K ->
  (H <= 0 -> chunk_count K H = 0%nat)
  /\ (0 < H ->
      (Z.of_nat (chunk_count K H) - 1) * print_height K < H
      /\ H <= Z.of_nat (chunk_count K H) * print_height K)
  /\ (chunk_count K H <= Z.to_nat H)%nat.
Proof.
  intros Hph. unfold chunk_count.
  pose proof (Z.div_mod (H + print_height K - 1) (print_height K) ltac:(lia))
    as Hdm.
  pose proof (Z.mod_pos_bound (H + print_height K - 1) (print_height K) Hph)
    as Hm.
  set (q := (H + print_height K - 1) / print_height K) in *.
  assert (H <= 0 -> q <= 0) as Hneg by (intros; subst q; nia).
  assert (0 < H -> 0 < q) as Hpos by (intros; nia).
  split; [intros; lia|]. split.
  - intros HH. specialize (Hpos HH). rewrite Z2Nat.id by lia. nia.
  - destruct (Z_le_gt_dec H 0) as [HH|HH]; [lia|].
    assert (q <= H) by nia. lia.
Qed.

(** The runs of the orchestrator that return.  With a positive print height
    the loop ends within its fuel.  When the call returns 0 it has run
    exactly ceil(H / printHeight) rounds, one after the other from cursor 0,
    each an upload that returned 0 followed by a print that returned 0.
    When it returns r <> 0, fewer rounds than that completed, the next round
    returned r, and what the orchestrator returns is that code and the
    environment as that round left it: either its upload returned r and set
    the upload error, with no print after it, or its upload returned 0 and
    its print returned r and set the print error.  Nothing is sent or undone
    afterwards.  The lemma is silent on the runs that an assertion or an
    access outside an array stops; the theorem on the printer with an
    overlap margin, below, evaluates one of them. *)
Lemma escpos_printer_image_returns (K : constants) (st : world) (im : image)
    (stack : nat -> Z) :
  0 < print_height K ->
  let N := chunk_count K (height im) in
  let pixel_bits :=
    local_array stack
      (Z.quot (ESCPOS_MAX_DOT_WIDTH K) 8 * ESCPOS_CHUNK_DOT_HEIGHT K) in
  (0 < height im ->
     (Z.of_nat N - 1) * print_height K < height im
     /\ height im <= Z.of_nat N * print_height K)
  /\ match escpos_printer_image K st (Some im) stack with
     | Done (r, st') =>
         exists (k : nat) (st_k : world) (bits_k : list Z),
           completed_rounds K im k 0 (st, pixel_bits) (st_k, bits_k)
           /\ ops st_k = ops st ++ rounds_journal k
           /\ ((r = 0 /\ k = N /\ st' = st_k)
               \/ (r <> 0 /\ (k < N)%nat
                   /\ (exists bits',
                         image_round K st_k im bits_k (Z.of_nat k)
                         = Done (r, st', bits'))
                   /\ ((ops st' = ops st_k ++ [OpUpload r]
                        /\ last_error st' = ESCPOS_ERROR_IMAGE_UPLOAD_FAILED)
                       \/ (ops st' = ops st_k ++ [OpUpload 0; OpPrint r]
                           /\ last_error st' = ESCPOS_ERROR_IMAGE_PRINT_FAILED))))
     | Fault => True
     | OutOfFuel => False
     end.
Proof.
  intros Hph N pixel_bits.
  destruct (chunk_count_ceiling K (height im) Hph) as (_ & Hceil & Hfuel).
  fold N in Hceil, Hfuel. split; [exact Hceil|].
  unfold escpos_printer_image. fold pixel_bits.
  pose proof (image_loop_rounds K im Hph (Datatypes.S (Z.to_nat (height im)))
                0 st pixel_bits) as Hloop.
  cbv zeta in Hloop.
  replace (height im - 0 * print_height K + print_height K - 1)
    with (height im + print_height K - 1) in Hloop by lia.
  fold (chunk_count K (height im)) in Hloop. fold N in Hloop.
  specialize (Hloop ltac:(lia)).
  destruct (image_loop K (Datatypes.S (Z.to_nat (height im))) st im pixel_bits 0)
    as [[r st']| |]; [|exact I | exact Hloop].
  destruct Hloop as (k & st_k & bits_k & Hrounds & Hjournal & Hend).
  exists k, st_k, bits_k. split; [exact Hrounds|]. split; [exact Hjournal|].
  rewrite Z.add_0_l in Hend. exact Hend.
Qed.

(** The scenario of the specification on the 64-dot printer.  The image of
    65 rows takes ceil(65/64) = 2 rounds.  On a reliable socket both
    complete and the result is 0.  When the socket fails from its 70th call
    on, that is inside the second upload, the first round completes, the
    second upload fails, nothing is printed after it, and the result is
    nonzero with the upload error set. *)
Example escpos_printer_image_two_chunks :
  chunk_count printer64 (height tall_image) = 2%nat
  /\ (exists st',
        escpos_printer_image printer64 (connected net_reliable)
          (Some tall_image) (fun _ => 7) = Done (0, st')
        /\ ops st' = [OpUpload 0; OpPrint 0; OpUpload 0; OpPrint 0]
        /\ last_error st' = ESCPOS_ERROR_NONE)
  /\ (exists st',
        escpos_printer_image printer64 (connected (net_fails_from 70))
          (Some tall_image) (fun _ => 7) = Done (1, st')
        /\ ops st' = [OpUpload 0; OpPrint 0; OpUpload 1]
        /\ last_error st' = ESCPOS_ERROR_IMAGE_UPLOAD_FAILED
        /\ clock st' = 71%nat).
Proof.
  split; [reflexivity|]. split.
  - eexists. split; [vm_compute; reflexivity|]. split; reflexivity.
  - eexists. split; [vm_compute; reflexivity|]. repeat split; reflexivity.
Qed.

(** C9 (the code at a failing input).  On a printer with 64-dot chunks and
    an overlap margin of 8 (print height 56), an image of 8 x 64 gray dots,
    all dark, takes ceil(64 / 56) = 2 rounds, and the socket accepts every
    byte it is offered.  The first round completes: its upload and its print
    return 0, no error is set, and the printer has received, in 66 sends,
    the header 29 42 4 8, the 256 bytes of the packed chunk (the 8 dark
    columns centred in 32) and the print command 29 47 0.  The loop guard
    holds again at cursor 1 (56 < 64), so a second round starts; its chunk
    height is 0, the packer hands a bitmap of height 0 to the upload, and
    the run stops there on the assertion [h > 0]: the second round is not
    performed, and the call returns nothing to its caller, neither 0 nor a
    failure code. *)
Theorem escpos_printer_image_stops_in_round_2 :
  let K := printer64_overlap8 in
  let im := Image 8 64 1 (replicate 512 0) in
  let st := connected net_reliable in
  let pixel_bits :=
    local_array (fun _ => 0)
      (Z.quot (ESCPOS_MAX_DOT_WIDTH K) 8 * ESCPOS_CHUNK_DOT_HEIGHT K) in
  chunk_count K (height im) = 2%nat
  /\ (exists (st1 : world) (bits1 : list Z),
        image_round K st im pixel_bits 0 = Done (0, st1, bits1)
        /\ take 256 bits1 = replicate 96 0 ++ replicate 64 255 ++ replicate 96 0
        /\ wire st1
           = [29; 42; 4; 8] ++ take 256 bits1 ++ [29; 47; 0]
        /\ length (raw_calls st1) = 66%nat
        /\ clock st1 = 66%nat
        /\ last_error st1 = ESCPOS_ERROR_NONE
        /\ ops st1 = [OpUpload 0; OpPrint 0]
        /\ (1 * print_height K <? height im) = true
        /\ chunk_height K (height im) 1 = 0
        /\ convert_image_to_bits bits1
             (drop (Z.to_nat (1 * print_height K * width im * comp im))
                (image_data im))
             (width im) (chunk_height K (height im) 1) (comp im)
           = Done (bits1, 32, 0)
        /\ escpos_printer_upload K st1 bits1 32 0 = Fault
        /\ image_round K st1 im bits1 1 = Fault)
  /\ escpos_printer_image K st (Some im) (fun _ => 0) = Fault.
Proof.
  split; [reflexivity|]. split.
  - eexists. eexists. split; [vm_compute; reflexivity|].
    repeat split; vm_compute; reflexivity.
  - vm_compute. reflexivity.
Qed.

(** ** The orchestrator on a reliable connection *)

Lemma escpos_printer_raw_accepted (st : world) (message : list Z) (len : Z) :
  reliable st ->
  1 <= len <= 4 ->
  len <= Z.of_nat (length message) ->
  exists st',
    escpos_printer_raw st message len = Done (0, st') /\ net st' = net st.
Proof.
  intros Hnet Hlen Hmsg. unfold escpos_printer_raw, readable.
  destruct (Z.leb_spec len (Z.of_nat (length message))) as [_|]; [|lia].
  run. destruct (Z.to_nat len) as [|n] eqn:En; [lia|].
  cbn [raw_loop]. destruct (Z.ltb_spec 0 len) as [_|]; [|lia].
  unfold send at 1. cbn [net clock log_raw].
  destruct (Hnet (clock st)) as (k & -> & Hk).
  replace (Z.min (Z.pos k) len) with len by lia.
  destruct (Z.eqb_spec len (-1)) as [|_]; [lia|].
  destruct (Z.ltb_spec (0 + len) len) as [|_]; [lia|].
  run. rewrite Z.eqb_refl. eexists. split; reflexivity.
Qed.

Lemma upload_loop_accepted (pixel_bits : list Z) (n : nat) :
  forall (i : Z) (st : world),
    reliable st ->
    0 <= i ->
    (Z.to_nat (i * 4) + 4 * n <= length pixel_bits)%nat ->
    exists st',
      upload_loop n i st pixel_bits = Done (0, st') /\ net st' = net st.
Proof.
  induction n as [|n IH]; intros i st Hnet Hi Hroom; simpl.
  - eexists. split; reflexivity.
  - destruct (escpos_printer_raw_accepted st
                (drop (Z.to_nat (i * 4)) pixel_bits) 4 Hnet)
      as (st1 & -> & Hnet1); [lia | rewrite length_drop; lia|].
    run. cbn [Z.eqb negb].
    destruct (IH (i + 1) st1) as (st' & -> & Hnet');
      [unfold reliable; rewrite Hnet1; exact Hnet | lia | lia |].
    eexists. split; [reflexivity | congruence].
Qed.

Lemma escpos_printer_upload_accepted (K : constants) (st : world)
    (pixel_bits : list Z) (w h : Z) :
  reliable st ->
  0 < w <= ESCPOS_CHUNK_DOT_HEIGHT K ->
  0 < h <= ESCPOS_CHUNK_DOT_HEIGHT K ->
  w mod 32 = 0 -> h mod 32 = 0 ->
  w * (h / 8) <= Z.of_nat (length pixel_bits) ->
  exists st',
    escpos_printer_upload K st pixel_bits w h = Done (0, st')
    /\ net st' = net st.
Proof.
  intros Hnet Hw Hh Hw32 Hh32 Hroom. unfold escpos_printer_upload.
  rewrite <- Z.rem_mod_nonneg in Hw32, Hh32 by lia.
  destruct (Z.gtb_spec w 0); [|lia].
  destruct (Z.leb_spec w (ESCPOS_CHUNK_DOT_HEIGHT K)); [|lia].
  destruct (Z.gtb_spec h 0); [|lia].
  destruct (Z.leb_spec h (ESCPOS_CHUNK_DOT_HEIGHT K)); [|lia].
  rewrite Hw32, Hh32. run. cbn [Z.eqb]. run.
  destruct (aligned_area w h ltac:(lia) ltac:(lia) Hw32 Hh32)
    as (Hw8 & Hh8 & Hq & Hfour & _ & Hpos).
  set (buffer := strncpy (ESCPOS_CMD_DEFINE_DL_BIT_IMAGE K) 2 ++ _).
  destruct (escpos_printer_raw_accepted st buffer 4 Hnet)
    as (st1 & -> & Hnet1);
    [lia | subst buffer; rewrite length_app, strncpy_length; simpl; lia|].
  run. cbn [Z.eqb]. rewrite Hq.
  destruct (upload_loop_accepted pixel_bits
              (Z.to_nat (w * (h / 8) / 4)) 0 st1)
    as (st2 & -> & Hnet2);
    [unfold reliable; rewrite Hnet1; exact Hnet | lia | lia |].
  run. cbn [Z.eqb negb]. eexists. split; [reflexivity|]. simpl. congruence.
Qed.

Lemma escpos_printer_print_accepted (K : constants) (st : world) :
  reliable st ->
  (3 <= length (ESCPOS_CMD_PRINT_DL_BIT_IMAGE K))%nat ->
  exists st', escpos_printer_print K st = Done (0, st') /\ net st' = net st.
Proof.
  intros Hnet Hcmd. unfold escpos_printer_print.
  destruct (escpos_printer_raw_accepted st
              (ESCPOS_CMD_PRINT_DL_BIT_IMAGE K) 3 Hnet)
    as (st1 & -> & Hnet1); [lia | lia |].
  run. cbn [Z.eqb negb]. eexists. split; [reflexivity | exact Hnet1].
Qed.

(** A printer without overlap margin whose chunk capacity is a multiple of
    32 dots, and a decoded image that fits its width: on a reliable
    connection every round succeeds. *)
Section ReliableRun.
Variable K : constants.
Variable im : image.
Hypothesis no_overlap : ESCPOS_CHUNK_OVERLAP K = 0.
Hypothesis capacity_pos : 0 < ESCPOS_CHUNK_DOT_HEIGHT K.
Hypothesis capacity_aligned : ESCPOS_CHUNK_DOT_HEIGHT K mod 32 = 0.
Hypothesis width_aligned : ESCPOS_MAX_DOT_WIDTH K mod 8 = 0.
Hypothesis print_command :
  (3 <= length (ESCPOS_CMD_PRINT_DL_BIT_IMAGE K))%nat.
Hypothesis width_pos : 1 <= width im.
Hypothesis width_fits :
  width im + fst (calculate_padding (width im))
  + snd (calculate_padding (width im))
  <= Z.min (ESCPOS_MAX_DOT_WIDTH K) (ESCPOS_CHUNK_DOT_HEIGHT K).
Hypothesis components : comp im = 1 \/ comp im = 2 \/ comp im = 3 \/ comp im = 4.
Hypothesis data_size :
  Z.of_nat (length (image_data im)) = width im * height im * comp im.

Lemma image_round_accepted (st : world) (bits : list Z) (y : Z) :
  reliable st ->
  Z.of_nat (length bits)
  = Z.quot (ESCPOS_MAX_DOT_WIDTH K) 8 * ESCPOS_CHUNK_DOT_HEIGHT K ->
  0 <= y -> y * print_height K < height im ->
  exists st' bits',
    image_round K st im bits y = Done (0, st', bits')
    /\ net st' = net st
    /\ length bits' = length bits.
Proof using All.
  intros Hnet Hbits Hy Hguard. unfold print_height in Hguard.
  rewrite no_overlap, Z.sub_0_r in Hguard.
  unfold image_round, print_height. rewrite no_overlap, Z.sub_0_r.
  set (CAP := ESCPOS_CHUNK_DOT_HEIGHT K) in *.
  set (MAXW := ESCPOS_MAX_DOT_WIDTH K) in *.
  set (w := width im) in *. set (H := height im) in *. set (c := comp im) in *.
  assert (1 <= chunk_height K H y <= CAP
          /\ chunk_height K H y <= H - y * CAP) as [Hchunk Hleft].
  { unfold chunk_height. fold CAP.
    destruct (Z.leb_spec ((y + 1) * CAP) H); lia. }
  set (ch := chunk_height K H y) in *.
  destruct (calculate_padding_nonneg w width_pos) as [Hl0 Hr0].
  destruct (calculate_padding_nonneg ch ltac:(lia)) as [Ht0 Hb0].
  pose proof (calculate_padding_least ch CAP ltac:(lia) capacity_aligned
                ltac:(lia)) as Hfit.
  pose proof (calculate_padding_aligned w width_pos) as HWp32.
  pose proof (calculate_padding_aligned ch ltac:(lia)) as HHp32.
  assert (0 <= MAXW) as HMAXW by lia.
  rewrite Z.quot_div_nonneg in Hbits by lia.
  pose proof (Z.div_mod MAXW 8 ltac:(lia)) as HM8.
  rewrite width_aligned in HM8.
  set (data := drop (Z.to_nat (y * CAP * w * c)) (image_data im)).
  assert (1 <= c <= 4) as Hc by (destruct components as [?|[?|[?|?]]]; lia).
  assert (w * ch * c <= Z.of_nat (length data)) as Hdata.
  { subst data. rewrite length_drop.
    assert (0 <= y * CAP * w * c) by nia.
    assert (w * ch * c + y * CAP * w * c <= w * H * c) by nia. lia. }
  pose proof (convert_image_to_bits_packed bits data w ch c width_pos
                ltac:(lia) components Hdata) as Hpack.
  cbv zeta in Hpack.
  set (Wp := w + fst (calculate_padding w) + snd (calculate_padding w)) in *.
  replace (ch + fst (calculate_padding ch) + snd (calculate_padding ch))
    with (ch + (snd (calculate_padding ch) + fst (calculate_padding ch)))
    in Hfit, HHp32 by lia.
  set (Hp := ch + (snd (calculate_padding ch) + fst (calculate_padding ch)))
    in *.
  assert (Wp * Hp <= 8 * Z.of_nat (length bits)) as Hroom by nia.
  destruct (Hpack Hroom) as (bits1 & -> & Hlen1 & _). run.
  pose proof (aligned_mod_8 Hp HHp32) as HHp8.
  pose proof (Z.div_mod Hp 8 ltac:(lia)) as HHpdm. rewrite HHp8 in HHpdm.
  destruct (escpos_printer_upload_accepted K st bits1 Wp Hp Hnet)
    as (st1 & -> & Hnet1); [lia | lia | exact HWp32 | exact HHp32 | nia |].
  run. cbn [Z.eqb].
  destruct (escpos_printer_print_accepted K st1) as (st2 & -> & Hnet2);
    [unfold reliable; rewrite Hnet1; exact Hnet | exact print_command |].
  run. exists st2, bits1. split; [reflexivity|].
  split; [congruence | exact Hlen1].
Qed.

Lemma image_loop_accepted (fuel : nat) :
  forall (y : Z) (st : world) (bits : list Z),
    reliable st ->
    Z.of_nat (length bits)
    = Z.quot (ESCPOS_MAX_DOT_WIDTH K) 8 * ESCPOS_CHUNK_DOT_HEIGHT K ->
    0 <= y ->
    (Z.to_nat ((height im - y * print_height K + print_height K - 1)
               / print_height K) < fuel)%nat ->
    exists st', image_loop K fuel st im bits y = Done (0, st').
Proof using All.
  assert (0 < print_height K) as Hph
    by (unfold print_height; rewrite no_overlap; lia).
  induction fuel as [|fuel IH]; intros y st bits Hnet Hbits Hy Hfuel; [lia|].
  destruct (remaining_rounds (print_height K) (height im) y Hph) as [Hgo _].
  simpl. destruct (Z.ltb_spec (y * print_height K) (height im)) as [Hlt|Hge].
  - destruct (image_round_accepted st bits y Hnet Hbits Hy Hlt)
      as (st1 & bits1 & -> & Hnet1 & Hlen1).
    run. cbn [Z.eqb negb].
    apply IH; [unfold reliable; rewrite Hnet1; exact Hnet | lia | lia|].
    specialize (Hgo Hlt). lia.
  - eexists. reflexivity.
Qed.

(** X13.  On a printer without overlap margin whose chunk capacity is a
    multiple of 32 dots, for a decoded image whose padded width fits the
    printer, on a connection that accepts every request whole, the
    orchestrator returns 0 after exactly ceil(H / printHeight) rounds of a
    successful upload followed by a successful print; no assertion stops
    it. *)
Lemma escpos_printer_image_reliable (st : world) (stack : nat -> Z) :
  reliable st ->
  exists st',
    escpos_printer_image K st (Some im) stack = Done (0, st')
    /\ ops st' = ops st ++ rounds_journal (chunk_count K (height im)).
Proof using All.
  intros Hnet.
  assert (0 < print_height K) as Hph
    by (unfold print_height; rewrite no_overlap; lia).
  destruct (chunk_count_ceiling K (height im) Hph) as (_ & _ & Hfuel).
  pose proof (calculate_padding_nonneg (width im) width_pos) as [Hl0 Hr0].
  unfold escpos_printer_image.
  set (bits := local_array stack _).
  assert (Z.of_nat (length bits)
          = Z.quot (ESCPOS_MAX_DOT_WIDTH K) 8 * ESCPOS_CHUNK_DOT_HEIGHT K)
    as Hbits.
  { subst bits. unfold local_array. rewrite length_fmap, length_seq.
    rewrite Z.quot_div_nonneg by lia.
    assert (0 <= ESCPOS_MAX_DOT_WIDTH K / 8) by (apply Z.div_pos; lia).
    nia. }
  pose proof (image_loop_rounds K im Hph (Datatypes.S (Z.to_nat (height im)))
                0 st bits) as Hloop.
  cbv zeta in Hloop.
  replace (height im - 0 * print_height K + print_height K - 1)
    with (height im + print_height K - 1) in Hloop by lia.
  fold (chunk_count K (height im)) in Hloop.
  specialize (Hloop ltac:(lia)).
  destruct (image_loop_accepted (Datatypes.S (Z.to_nat (height im)))
              0 st bits Hnet Hbits ltac:(lia)) as (st' & Hrun).
  { replace (height im - 0 * print_height K + print_height K - 1)
      with (height im + print_height K - 1) by lia.
    fold (chunk_count K (height im)). lia. }
  rewrite Hrun in Hloop |- *.
  destruct Hloop as (k & st_k & bits_k & _ & Hjournal & Hend).
  exists st'. split; [reflexivity|].
  destruct Hend as [(_ & -> & ->)|(Hne & _)]; [exact Hjournal | contradiction].
Qed.

End ReliableRun.

(** The 64-dot printer, the image of 65 rows and the reliable socket meet
    these conditions. *)
Lemma escpos_printer_image_reliable_witness :
  exists st',
    escpos_printer_image printer64 (connected net_reliable) (Some tall_image)
      (fun _ => 7) = Done (0, st')
    /\ ops st' = ops (connected net_reliable)
                 ++ rounds_journal (chunk_count printer64 (height tall_image)).
Proof.
  apply (escpos_printer_image_reliable printer64 tall_image).
  - reflexivity.
  - reflexivity.
  - reflexivity.
  - reflexivity.
  - simpl. lia.
  - simpl. lia.
  - vm_compute. discriminate.
  - left. reflexivity.
  - reflexivity.
  - intros n. exists 4096%positive. split; [reflexivity | lia].
Defined.

(** ** The transport: what every run does *)

(** Every run of the send loop: the sends accept [ks] bytes in turn, each
    time a prefix of the message; the loop ends when the count reaches the
    total or when a send fails. *)
Lemma raw_loop_run (message : list Z) (total : Z) (fuel : nat) :
  1 <= total <= Z.of_nat (length message) ->
  forall (st : world) (sent : Z),
    0 <= sent ->
    (Z.to_nat (total - sent) < fuel)%nat ->
    exists (sent' : Z) (st' : world) (ks : list nat),
      raw_loop fuel st message total sent = Done (sent', st')
      /\ Forall (fun k => (1 <= k <= Z.to_nat total)%nat) ks
      /\ (length ks <= Z.to_nat (total - sent))%nat
      /\ wire st' = wire st ++ concat ((fun k => take k message) <$> ks)
      /\ sent' = sent + Z.of_nat (sum_list ks)
      /\ raw_calls st' = raw_calls st /\ ops st' = ops st /\ net st' = net st
      /\ ((total <= sent' /\ last_error st' = last_error st
           /\ clock st' = (clock st + length ks)%nat)
          \/ (sent' < total
              /\ last_error st' = ESCPOS_ERROR_SEND_FAILED
              /\ clock st' = (clock st + length ks + 1)%nat
              /\ net st (clock st + length ks)%nat = SendError)).
Proof.
  intros Htotal. induction fuel as [|fuel IH]; intros st sent Hs Hf; [lia|].
  simpl. destruct (Z.ltb_spec sent total) as [Hlt|Hge].
  - unfold send. destruct (net st (clock st)) as [|k] eqn:E.
    + simpl. exists sent, (set_last_error ESCPOS_ERROR_SEND_FAILED
                (World (net st) (Datatypes.S (clock st)) (wire st)
                   (last_error st) (raw_calls st) (ops st))), [].
      split; [reflexivity|]. split; [constructor|]. simpl.
      rewrite app_nil_r, !Nat.add_0_r.
      repeat split; try reflexivity; try lia.
      right. repeat split; try lia; assumption.
    + set (n := Z.min (Z.pos k) total).
      assert (1 <= n <= total) as Hn by (subst n; lia).
      destruct (Z.eqb_spec n (-1)) as [|_]; [lia|].
      destruct (IH (World (net st) (Datatypes.S (clock st))
                      (wire st ++ take (Z.to_nat n) message) (last_error st)
                      (raw_calls st) (ops st)) (sent + n))
        as (sent' & st' & ks & Hrun & Hks & Hcount & Hwire & Hsent & Hcalls
            & Hops & Hnet & Hend); [lia | lia |].
      exists sent', st', (Z.to_nat n :: ks).
      split; [exact Hrun|]. simpl in *.
      split; [constructor; [lia | exact Hks]|].
      split; [lia|].
      split; [rewrite Hwire, <- app_assoc; reflexivity|].
      split; [lia|]. split; [exact Hcalls|]. split; [exact Hops|].
      split; [exact Hnet|].
      destruct Hend as [(H1 & H2 & H3)|(H1 & H2 & H3 & H4)].
      * left. repeat split; try assumption; lia.
      * right. repeat split; try assumption; try lia.
        replace (clock st + Datatypes.S (length ks))%nat
          with (Datatypes.S (clock st + length ks)) by lia.
        exact H4.
  - exists sent, st, []. split; [reflexivity|]. split; [constructor|].
    simpl. rewrite app_nil_r, !Nat.add_0_r.
    repeat split; try reflexivity; try lia. left. repeat split; lia.
Qed.

Lemma prefixes_length (message : list Z) (n : nat) (ks : list nat) :
  (n <= length message)%nat ->
  Forall (fun k => (1 <= k <= n)%nat) ks ->
  length (concat ((fun k => take k message) <$> ks)) = sum_list ks.
Proof.
  intros Hn. induction 1 as [|k ks Hk _ IH]; [reflexivity|].
  rewrite fmap_cons. cbn [concat sum_list sum_list_with].
  rewrite length_app, length_take, IH. unfold id. lia.
Qed.

(** What [escpos_printer_raw] does on a message of at least len >= 1
    bytes. *)
Lemma escpos_printer_raw_run (st : world) (message : list Z) (len : Z) :
  1 <= len <= Z.of_nat (length message) ->
  exists (r : Z) (st' : world) (ks : list nat),
    escpos_printer_raw st message len = Done (r, st')
    /\ Forall (fun k => (1 <= k <= Z.to_nat len)%nat) ks
    /\ (length ks <= Z.to_nat len)%nat
    /\ wire st' = wire st ++ concat ((fun k => take k message) <$> ks)
    /\ raw_calls st' = raw_calls st ++ [take (Z.to_nat len) message]
    /\ ops st' = ops st /\ net st' = net st
    /\ ((r = 0 /\ Z.of_nat (sum_list ks) = len
         /\ last_error st' = last_error st
         /\ clock st' = (clock st + length ks)%nat)
        \/ (r = 1 /\ len < Z.of_nat (sum_list ks)
            /\ last_error st' = last_error st
            /\ clock st' = (clock st + length ks)%nat)
        \/ (r = 1 /\ Z.of_nat (sum_list ks) < len
            /\ last_error st' = ESCPOS_ERROR_SEND_FAILED
            /\ clock st' = (clock st + length ks + 1)%nat
            /\ net st (clock st + length ks)%nat = SendError)).
Proof.
  intros Hlen. unfold escpos_printer_raw, readable.
  destruct (Z.leb_spec len (Z.of_nat (length message))) as [_|]; [|lia].
  cbn -[raw_loop].
  destruct (raw_loop_run message len (Datatypes.S (Z.to_nat len)) Hlen
              (log_raw (take (Z.to_nat len) message) st) 0)
    as (sent' & st' & ks & -> & Hks & Hcount & Hwire & Hsent & Hcalls & Hops
        & Hnet & Hend); [lia | lia |].
  cbn [mbind result_bind]. cbn [log_raw wire clock last_error net raw_calls ops] in *.
  rewrite Z.add_0_l in Hsent. subst sent'. rewrite Z.sub_0_r in Hcount.
  eexists _, st', ks. split; [reflexivity|].
  split; [exact Hks|]. split; [exact Hcount|]. split; [exact Hwire|].
  split; [exact Hcalls|]. split; [exact Hops|]. split; [exact Hnet|].
  destruct (Z.eqb_spec (Z.of_nat (sum_list ks)) len) as [Heq|Hne].
  - left. destruct Hend as [(_ & H2 & H3)|(H1 & _)]; [auto | lia].
  - right. destruct Hend as [(H1 & H2 & H3)|(H1 & H2 & H3 & H4)].
    + left. repeat split; try assumption; lia.
    + right. repeat split; try assumption; lia.
Qed.

(** X1.  For a message of at least len >= 1 bytes [escpos_printer_raw]
    always returns, with 0 or 1, after at most len sends.  Each send puts a
    prefix of the message, of 1 to len bytes, on the wire.  The result is 0
    exactly when the sends accepted len bytes in all, and then [last_error]
    is as it was.  The result is 1 either when the sends accepted more than
    len bytes in all, with [last_error] as it was, or when a send failed
    before len bytes were accepted, with the send error set. *)
Theorem escpos_printer_raw_outcome (st : world) (message : list Z) (len : Z) :
  1 <= len <= Z.of_nat (length message) ->
  exists (r : Z) (st' : world) (ks : list nat),
    escpos_printer_raw st message len = Done (r, st')
    /\ Forall (fun k => (1 <= k <= Z.to_nat len)%nat) ks
    /\ (length ks <= Z.to_nat len)%nat
    /\ wire st' = wire st ++ concat ((fun k => take k message) <$> ks)
    /\ length (wire st') = (length (wire st) + sum_list ks)%nat
    /\ (r = 0 <-> Z.of_nat (sum_list ks) = len)
    /\ ((r = 0 /\ last_error st' = last_error st
         /\ clock st' = (clock st + length ks)%nat)
        \/ (r = 1 /\ len < Z.of_nat (sum_list ks)
            /\ last_error st' = last_error st
            /\ clock st' = (clock st + length ks)%nat)
        \/ (r = 1 /\ Z.of_nat (sum_list ks) < len
            /\ last_error st' = ESCPOS_ERROR_SEND_FAILED
            /\ clock st' = (clock st + length ks + 1)%nat
            /\ net st (clock st + length ks)%nat = SendError)).
Proof.
  intros Hlen.
  destruct (escpos_printer_raw_run st message len Hlen)
    as (r & st' & ks & Hrun & Hks & Hcount & Hwire & _ & _ & _ & Hend).
  exists r, st', ks. split; [exact Hrun|]. split; [exact Hks|].
  split; [exact Hcount|]. split; [exact Hwire|].
  split.
  { rewrite Hwire, length_app.
    rewrite (prefixes_length message (Z.to_nat len) ks) by (lia || exact Hks).
    reflexivity. }
  split.
  { destruct Hend as [(-> & H & _)|[(-> & H & _)|(-> & H & _)]];
      split; intros; lia. }
  destruct Hend as [(H1 & H2 & H3 & H4)|[H|H]]; auto.
Qed.

Lemma escpos_printer_raw_outcome_witness :
  exists (r : Z) (st' : world) (ks : list nat),
    escpos_printer_raw (connected net_3_then_all) [65; 66; 67; 68] 4
    = Done (r, st')
    /\ Forall (fun k => (1 <= k <= Z.to_nat 4)%nat) ks
    /\ (length ks <= Z.to_nat 4)%nat
    /\ wire st' = wire (connected net_3_then_all)
                  ++ concat ((fun k => take k [65; 66; 67; 68]) <$> ks)
    /\ length (wire st')
       = (length (wire (connected net_3_then_all)) + sum_list ks)%nat
    /\ (r = 0 <-> Z.of_nat (sum_list ks) = 4)
    /\ ((r = 0 /\ last_error st' = last_error (connected net_3_then_all)
         /\ clock st' = (clock (connected net_3_then_all) + length ks)%nat)
        \/ (r = 1 /\ 4 < Z.of_nat (sum_list ks)
            /\ last_error st' = last_error (connected net_3_then_all)
            /\ clock st' = (clock (connected net_3_then_all) + length ks)%nat)
        \/ (r = 1 /\ Z.of_nat (sum_list ks) < 4
            /\ last_error st' = ESCPOS_ERROR_SEND_FAILED
            /\ clock st'
               = (clock (connected net_3_then_all) + length ks + 1)%nat
            /\ net (connected net_3_then_all)
                 (clock (connected net_3_then_all) + length ks)%nat
               = SendError)).
Proof.
  apply (escpos_printer_raw_outcome (connected net_3_then_all)
           [65; 66; 67; 68] 4).
  simpl. lia.
Defined.

(** ** The transport: when the first send decides *)

Lemma escpos_printer_raw_whole (st : world) (message : list Z) (len : Z)
    (k : positive) :
  1 <= len <= Z.of_nat (length message) ->
  net st (clock st) = SendAccept k ->
  len <= Z.pos k ->
  escpos_printer_raw st message len
  = Done (0, World (net st) (Datatypes.S (clock st))
               (wire st ++ take (Z.to_nat len) message) (last_error st)
               (raw_calls st ++ [take (Z.to_nat len) message]) (ops st)).
Proof.
  intros Hlen Hnet Hk. unfold escpos_printer_raw, readable.
  destruct (Z.leb_spec len (Z.of_nat (length message))) as [_|]; [|lia].
  run. destruct (Z.to_nat len) as [|n] eqn:En; [lia|].
  cbn [raw_loop]. destruct (Z.ltb_spec 0 len) as [_|]; [|lia].
  unfold send at 1. cbn [net clock log_raw]. rewrite Hnet.
  replace (Z.min (Z.pos k) len) with len by lia.
  destruct (Z.eqb_spec len (-1)) as [|_]; [lia|].
  destruct (Z.ltb_spec (0 + len) len) as [|_]; [lia|].
  run. rewrite Z.eqb_refl, En. reflexivity.
Qed.

Lemma escpos_printer_raw_refused (st : world) (message : list Z) (len : Z) :
  1 <= len <= Z.of_nat (length message) ->
  net st (clock st) = SendError ->
  escpos_printer_raw st message len
  = Done (1, World (net st) (Datatypes.S (clock st)) (wire st)
               ESCPOS_ERROR_SEND_FAILED
               (raw_calls st ++ [take (Z.to_nat len) message]) (ops st)).
Proof.
  intros Hlen Hnet. unfold escpos_printer_raw, readable.
  destruct (Z.leb_spec len (Z.of_nat (length message))) as [_|]; [|lia].
  run. destruct (Z.to_nat len) as [|n] eqn:En; [lia|].
  cbn [raw_loop]. destruct (Z.ltb_spec 0 len) as [_|]; [|lia].
  unfold send at 1. cbn [net clock log_raw]. rewrite Hnet.
  cbn [Z.eqb Pos.eqb]. run.
  destruct (Z.eqb_spec 0 len) as [|_]; [lia|]. reflexivity.
Qed.

(** ** Cut, feed and print *)

(** X2.  [escpos_printer_cut] hands the first three bytes of the cut command
    to one send: when that send accepts them it returns 0 with exactly these
    bytes added to the wire and [last_error] as it was; when that send fails
    it returns 1 with nothing added to the wire and the send error set. *)
Theorem escpos_printer_cut_outcome (K : constants) (st : world) :
  (3 <= length (ESCPOS_CMD_CUT K))%nat ->
  (forall k, net st (clock st) = SendAccept k -> 3 <= Z.pos k ->
     exists st',
       escpos_printer_cut K st = Done (0, st')
       /\ wire st' = wire st ++ take 3 (ESCPOS_CMD_CUT K)
       /\ last_error st' = last_error st
       /\ clock st' = Datatypes.S (clock st))
  /\ (net st (clock st) = SendError ->
      exists st',
        escpos_printer_cut K st = Done (1, st')
        /\ wire st' = wire st
        /\ last_error st' = ESCPOS_ERROR_SEND_FAILED
        /\ clock st' = Datatypes.S (clock st)).
Proof.
  intros Hcmd. unfold escpos_printer_cut. split.
  - intros k Hnet Hk. eexists. split.
    + apply (escpos_printer_raw_whole st (ESCPOS_CMD_CUT K) 3 k);
        [lia | exact Hnet | exact Hk].
    + simpl. auto.
  - intros Hnet. eexists. split.
    + apply (escpos_printer_raw_refused st (ESCPOS_CMD_CUT K) 3);
        [lia | exact Hnet].
    + simpl. auto.
Qed.

Lemma escpos_printer_cut_outcome_witness :
  (forall k,
     net (connected net_reliable) (clock (connected net_reliable))
     = SendAccept k ->
     3 <= Z.pos k ->
     exists st',
       escpos_printer_cut printer64 (connected net_reliable) = Done (0, st')
       /\ wire st' = wire (connected net_reliable)
                     ++ take 3 (ESCPOS_CMD_CUT printer64)
       /\ last_error st' = last_error (connected net_reliable)
       /\ clock st' = Datatypes.S (clock (connected net_reliable)))
  /\ (net (connected net_reliable) (clock (connected net_reliable))
      = SendError ->
      exists st',
        escpos_printer_cut printer64 (connected net_reliable) = Done (1, st')
        /\ wire st' = wire (connected net_reliable)
        /\ last_error st' = ESCPOS_ERROR_SEND_FAILED
        /\ clock st' = Datatypes.S (clock (connected net_reliable))).
Proof.
  apply (escpos_printer_cut_outcome printer64 (connected net_reliable)).
  simpl. lia.
Defined.

(** X3.  [escpos_printer_feed] hands one send three bytes: the two bytes
    that [strncpy] takes from the feed command, then the line count reduced
    to a byte.  When the command starts with two non-zero bytes a and b and
    the count is a byte, these are a, b and the count.  When the send accepts
    them the function returns 0 with exactly these bytes added to the wire;
    when it fails the function returns 1 with nothing added and the send
    error set. *)
Theorem escpos_printer_feed_outcome (K : constants) (st : world) (lines : Z) :
  let buffer := strncpy (ESCPOS_CMD_FEED K) 2 ++ [lines mod 256] in
  length buffer = 3%nat
  /\ (forall a b rest,
        ESCPOS_CMD_FEED K = a :: b :: rest -> a <> 0 -> b <> 0 ->
        0 <= lines < 256 ->
        buffer = [a; b; lines])
  /\ (forall k, net st (clock st) = SendAccept k -> 3 <= Z.pos k ->
        exists st',
          escpos_printer_feed K st lines = Done (0, st')
          /\ wire st' = wire st ++ buffer
          /\ last_error st' = last_error st
          /\ clock st' = Datatypes.S (clock st))
  /\ (net st (clock st) = SendError ->
      exists st',
        escpos_printer_feed K st lines = Done (1, st')
        /\ wire st' = wire st
        /\ last_error st' = ESCPOS_ERROR_SEND_FAILED
        /\ clock st' = Datatypes.S (clock st)).
Proof.
  intros buffer.
  assert (length buffer = 3%nat) as Hlen
    by (subst buffer; rewrite length_app, strncpy_length; reflexivity).
  split; [exact Hlen|]. split; [|split].
  - intros a b rest Hcmd Ha Hb Hlines. subst buffer. rewrite Hcmd.
    cbn [strncpy].
    destruct (Z.eqb_spec a 0) as [|_]; [contradiction|].
    destruct (Z.eqb_spec b 0) as [|_]; [contradiction|].
    rewrite Z.mod_small by lia. reflexivity.
  - intros k Hnet Hk. unfold escpos_printer_feed. fold buffer.
    eexists. split.
    + apply (escpos_printer_raw_whole st buffer 3 k);
        [lia | exact Hnet | exact Hk].
    + cbn [wire last_error clock]. rewrite take_ge by lia. auto.
  - intros Hnet. unfold escpos_printer_feed. fold buffer.
    eexists. split.
    + apply (escpos_printer_raw_refused st buffer 3); [lia | exact Hnet].
    + simpl. auto.
Qed.

(** X4.  When the print command holds three bytes [escpos_printer_print]
    always returns, with 0 or 1, and journals that result.  With 0 it has
    put three bytes on the wire and left [last_error] as it was.  With 1 it
    leaves the print error in [last_error], also when the cause is a failed
    send, whose own error code is overwritten. *)
Theorem escpos_printer_print_outcome (K : constants) (st : world) :
  (3 <= length (ESCPOS_CMD_PRINT_DL_BIT_IMAGE K))%nat ->
  exists (r : Z) (st' : world),
    escpos_printer_print K st = Done (r, st')
    /\ ops st' = ops st ++ [OpPrint r]
    /\ ((r = 0 /\ last_error st' = last_error st
         /\ length (wire st') = (length (wire st) + 3)%nat)
        \/ (r = 1 /\ last_error st' = ESCPOS_ERROR_IMAGE_PRINT_FAILED)).
Proof.
  intros Hcmd. unfold escpos_printer_print.
  destruct (escpos_printer_raw_run st (ESCPOS_CMD_PRINT_DL_BIT_IMAGE K) 3)
    as (r & st1 & ks & -> & Hks & _ & Hwire & _ & Hops & _ & Hend); [lia|].
  run. eexists _, _. split; [reflexivity|].
  pose proof (prefixes_length (ESCPOS_CMD_PRINT_DL_BIT_IMAGE K) (Z.to_nat 3)
                ks ltac:(lia) Hks) as Hl.
  destruct Hend as [(-> & Hsum & Herr & _)|[(-> & _)|(-> & _)]]; simpl.
  - split; [congruence|]. left. split; [reflexivity|]. split; [exact Herr|].
    rewrite Hwire, length_app, Hl. lia.
  - split; [congruence|]. right. auto.
  - split; [congruence|]. right. auto.
Qed.

Lemma escpos_printer_print_outcome_witness :
  exists (r : Z) (st' : world),
    escpos_printer_print printer64 (connected (net_fails_from 0))
    = Done (r, st')
    /\ ops st' = ops (connected (net_fails_from 0)) ++ [OpPrint r]
    /\ ((r = 0 /\ last_error st' = last_error (connected (net_fails_from 0))
         /\ length (wire st')
            = (length (wire (connected (net_fails_from 0))) + 3)%nat)
        \/ (r = 1 /\ last_error st' = ESCPOS_ERROR_IMAGE_PRINT_FAILED)).
Proof.
  apply (escpos_printer_print_outcome printer64
           (connected (net_fails_from 0))).
  simpl. lia.
Defined.

(** ** The upload: failure *)




(** ** The packer: the bytes it produces *)

(** The byte with index [k] of a buffer packed up to dot [M] is fixed by
    the values of its eight dots. *)
Lemma packed_byte_determined (e : Z -> bool) (a0 a b0 b : list Z) (M : Z)
    (k : nat) :
  M mod 8 = 0 ->
  packed_upto e a0 a M ->
  packed_upto e b0 b M ->
  8 * Z.of_nat k < M ->
  exists v, a !! k = Some v /\ b !! k = Some v /\ 0 <= v < 256
            /\ forall j, 0 <= j < 8 ->
                 Z.testbit v (7 - j) = e (8 * Z.of_nat k + j).
Proof.
  intros HM (_ & Hdots1 & _ & Hrange1) (_ & Hdots2 & _ & Hrange2) Hk.
  pose proof (Z.div_mod M 8 ltac:(lia)) as HM8. rewrite HM in HM8.
  destruct (Hrange1 k Hk) as (v1 & Hv1 & Hr1).
  destruct (Hrange2 k Hk) as (v2 & Hv2 & Hr2).
  assert (forall (c : list Z) (v : Z),
            (forall pj, 0 <= pj < M -> pixel_at c pj = e pj) ->
            c !! k = Some v ->
            forall j, 0 <= j < 8 ->
              Z.testbit v (7 - j) = e (8 * Z.of_nat k + j)) as Hbits.
  { intros c v Hdots Hv j Hj.
    set (pj := 8 * Z.of_nat k + j).
    assert (0 <= pj < M) as Hpj by (subst pj; lia).
    assert (pj / 8 = Z.of_nat k) as Hq
      by (symmetry; apply Z.div_unique with (r := j); subst pj; lia).
    assert (pj mod 8 = j) as Hr
      by (symmetry; apply Z.mod_unique with (q := Z.of_nat k); subst pj; lia).
    rewrite <- (Hdots pj Hpj). unfold pixel_at.
    rewrite Hq, Hr, Nat2Z.id, Hv. reflexivity. }
  assert (v1 = v2) as <-.
  { apply Z.bits_inj'. intros n Hn.
    destruct (Z_lt_le_dec n 8) as [Hn8|Hn8].
    - replace n with (7 - (7 - n)) by lia.
      rewrite (Hbits a v1 Hdots1 Hv1), (Hbits b v2 Hdots2 Hv2) by lia.
      reflexivity.
    - rewrite !byte_bits_above by lia. reflexivity. }
  exists v1. repeat split; try assumption; try lia.
  apply (Hbits a v1 Hdots1 Hv1).
Qed.

(** X6.  The packer overwrites its buffer: for an image of w >= 1 by h >= 1
    dots, the first Wp*Hp/8 bytes of the result, the bytes that are
    uploaded, are the same whatever the buffer held before the call. *)
Theorem convert_image_to_bits_overwrites (bits1 bits2 image_data : list Z)
    (w h c : Z) :
  1 <= w -> 1 <= h ->
  c = 1 \/ c = 2 \/ c = 3 \/ c = 4 ->
  w * h * c <= Z.of_nat (length image_data) ->
  let Wp := w + fst (calculate_padding w) + snd (calculate_padding w) in
  let Hp := h + (snd (calculate_padding h) + fst (calculate_padding h)) in
  Wp * Hp <= 8 * Z.of_nat (length bits1) ->
  Wp * Hp <= 8 * Z.of_nat (length bits2) ->
  exists out1 out2,
    convert_image_to_bits bits1 image_data w h c = Done (out1, Wp, Hp)
    /\ convert_image_to_bits bits2 image_data w h c = Done (out2, Wp, Hp)
    /\ take (Z.to_nat (Wp * Hp / 8)) out1 = take (Z.to_nat (Wp * Hp / 8)) out2.
Proof.
  intros Hw Hh Hc Himg.
  pose proof (convert_image_to_bits_packed bits1 image_data w h c
                Hw Hh Hc Himg) as Hpack1.
  pose proof (convert_image_to_bits_packed bits2 image_data w h c
                Hw Hh Hc Himg) as Hpack2.
  pose proof (calculate_padding_aligned h Hh) as HHp.
  replace (h + fst (calculate_padding h) + snd (calculate_padding h))
    with (h + (snd (calculate_padding h) + fst (calculate_padding h)))
    in HHp by lia.
  cbv zeta in Hpack1, Hpack2 |- *.
  set (Wp := w + fst (calculate_padding w) + snd (calculate_padding w)) in *.
  set (Hp := h + (snd (calculate_padding h) + fst (calculate_padding h))) in *.
  intros Hroom1 Hroom2.
  destruct (Hpack1 Hroom1) as (out1 & Hrun1 & Hinv1).
  destruct (Hpack2 Hroom2) as (out2 & Hrun2 & Hinv2).
  exists out1, out2. split; [exact Hrun1|]. split; [exact Hrun2|].
  assert ((Wp * Hp) mod 8 = 0) as HM.
  { pose proof (aligned_mod_8 Hp HHp) as HHp8.
    pose proof (Z.div_mod Hp 8 ltac:(lia)) as H8. rewrite HHp8 in H8.
    replace (Wp * Hp) with (0 + (Wp * (Hp / 8)) * 8) by lia.
    rewrite Z.mod_add by lia. reflexivity. }
  pose proof (Z.div_mod (Wp * Hp) 8 ltac:(lia)) as HM8. rewrite HM in HM8.
  apply list_eq. intros k.
  destruct (Nat.lt_ge_cases k (Z.to_nat (Wp * Hp / 8))) as [Hk|Hk].
  - rewrite !lookup_take_lt by exact Hk.
    destruct (packed_byte_determined _ _ _ _ _ _ k HM Hinv1 Hinv2 ltac:(lia))
      as (v & -> & -> & _). reflexivity.
  - rewrite !lookup_take_ge by exact Hk. reflexivity.
Qed.

Lemma convert_image_to_bits_overwrites_witness :
  let Wp := 2 + fst (calculate_padding 2) + snd (calculate_padding 2) in
  let Hp := 2 + (snd (calculate_padding 2) + fst (calculate_padding 2)) in
  exists out1 out2,
    convert_image_to_bits (replicate 128 255) two_by_two 2 2 1
    = Done (out1, Wp, Hp)
    /\ convert_image_to_bits (replicate 200 7) two_by_two 2 2 1
       = Done (out2, Wp, Hp)
    /\ take (Z.to_nat (Wp * Hp / 8)) out1 = take (Z.to_nat (Wp * Hp / 8)) out2.
Proof.
  apply (convert_image_to_bits_overwrites
           (replicate 128 255) (replicate 200 7) two_by_two 2 2 1).
  - lia.
  - lia.
  - left. reflexivity.
  - vm_compute. discriminate.
  - vm_compute. discriminate.
  - vm_compute. discriminate.
Defined.

(** X7.  An image of w >= 1 by h >= 1 dots in which the sampler finds no
    dark dot is packed into Wp*Hp/8 zero bytes. *)
Theorem convert_image_to_bits_blank (pixel_bits image_data : list Z)
    (w h c : Z) :
  1 <= w -> 1 <= h ->
  c = 1 \/ c = 2 \/ c = 3 \/ c = 4 ->
  w * h * c <= Z.of_nat (length image_data) ->
  (forall x y, 0 <= x < w -> 0 <= y < h ->
     convert_to_bit (drop (Z.to_nat (y * w * c + x * c)) image_data) c
     = Done 0) ->
  let Wp := w + fst (calculate_padding w) + snd (calculate_padding w) in
  let Hp := h + (snd (calculate_padding h) + fst (calculate_padding h)) in
  Wp * Hp <= 8 * Z.of_nat (length pixel_bits) ->
  exists out,
    convert_image_to_bits pixel_bits image_data w h c = Done (out, Wp, Hp)
    /\ take (Z.to_nat (Wp * Hp / 8)) out
       = replicate (Z.to_nat (Wp * Hp / 8)) 0.
Proof.
  intros Hw Hh Hc Himg Hlight.
  pose proof (convert_image_to_bits_packed pixel_bits image_data w h c
                Hw Hh Hc Himg) as Hpack.
  pose proof (calculate_padding_aligned h Hh) as HHp.
  replace (h + fst (calculate_padding h) + snd (calculate_padding h))
    with (h + (snd (calculate_padding h) + fst (calculate_padding h)))
    in HHp by lia.
  destruct (calculate_padding_nonneg h Hh) as [Ht0 Hb0].
  cbv zeta in Hpack |- *.
  set (l := fst (calculate_padding w)) in *.
  set (Wp := w + l + snd (calculate_padding w)) in *.
  set (Hp := h + (snd (calculate_padding h) + fst (calculate_padding h))) in *.
  intros Hroom.
  destruct (Hpack Hroom) as (out & Hrun & Hinv).
  exists out. split; [exact Hrun|].
  assert ((Wp * Hp) mod 8 = 0) as HM.
  { pose proof (aligned_mod_8 Hp HHp) as HHp8.
    pose proof (Z.div_mod Hp 8 ltac:(lia)) as H8. rewrite HHp8 in H8.
    replace (Wp * Hp) with (0 + (Wp * (Hp / 8)) * 8) by lia.
    rewrite Z.mod_add by lia. reflexivity. }
  pose proof (Z.div_mod (Wp * Hp) 8 ltac:(lia)) as HM8. rewrite HM in HM8.
  assert (forall pj, 0 <= pj ->
            expected_pixel image_data w h c l (pj / Hp) (pj mod Hp) = false)
    as Hblank.
  { intros pj Hpj. unfold expected_pixel.
    pose proof (Z.mod_pos_bound pj Hp ltac:(lia)) as Hm.
    destruct (Z.leb_spec l (pj / Hp)); [|reflexivity].
    destruct (Z.ltb_spec (pj / Hp) (l + w)); [|reflexivity].
    destruct (Z.ltb_spec (pj mod Hp) h); [|reflexivity]. cbn [andb].
    rewrite Hlight by lia. reflexivity. }
  apply list_eq. intros k.
  destruct (Nat.lt_ge_cases k (Z.to_nat (Wp * Hp / 8))) as [Hk|Hk].
  - rewrite lookup_take_lt, lookup_replicate_2 by exact Hk.
    destruct (packed_byte_determined _ _ _ _ _ _ k HM Hinv Hinv ltac:(lia))
      as (v & -> & _ & Hv & Hbits).
    f_equal. apply Z.bits_inj'. intros n Hn. rewrite Z.bits_0.
    destruct (Z_lt_le_dec n 8) as [Hn8|Hn8].
    + replace n with (7 - (7 - n)) by lia.
      rewrite Hbits by lia. apply Hblank. lia.
    + apply byte_bits_above; [exact Hv | lia].
  - rewrite lookup_take_ge by exact Hk.
    symmetry. apply lookup_replicate_None. exact Hk.
Qed.

Lemma convert_image_to_bits_blank_witness :
  let Wp := 2 + fst (calculate_padding 2) + snd (calculate_padding 2) in
  let Hp := 2 + (snd (calculate_padding 2) + fst (calculate_padding 2)) in
  exists out,
    convert_image_to_bits (replicate 128 255) (replicate 4 255) 2 2 1
    = Done (out, Wp, Hp)
    /\ take (Z.to_nat (Wp * Hp / 8)) out
       = replicate (Z.to_nat (Wp * Hp / 8)) 0.
Proof.
  apply (convert_image_to_bits_blank (replicate 128 255) (replicate 4 255)
           2 2 1).
  - lia.
  - lia.
  - left. reflexivity.
  - vm_compute. discriminate.
  - intros x y Hx Hy.
    assert (x = 0 \/ x = 1) as [-> | ->] by lia;
      assert (y = 0 \/ y = 1) as [-> | ->] by lia; reflexivity.
  - vm_compute. discriminate.
Defined.

(** ** Bits, samples and paddings at the edges *)

(** X8.  On a byte, [set_bit] with an index from 0 to 7 returns a byte in
    which that bit is 1 when [bit > 0] and 0 otherwise, and every other bit
    is as before; with any other index it stops on its assertion. *)
Theorem set_bit_one_bit (old i bit : Z) :
  0 <= old < 256 ->
  (0 <= i < 8 ->
     exists new,
       set_bit old i bit = Done new
       /\ 0 <= new < 256
       /\ Z.testbit new i = (bit >? 0)
       /\ forall j, j <> i -> Z.testbit new j = Z.testbit old j)
  /\ (i < 0 \/ 8 <= i -> set_bit old i bit = Fault).
Proof.
  intros Hold. split.
  - intros Hi.
    destruct (set_bit_spec old i bit Hi) as (new & Hrun & Hnew & Hbits).
    exists new. split; [exact Hrun|]. split; [exact Hnew|]. split.
    + rewrite (Hbits i Hi), Z.eqb_refl. reflexivity.
    + intros j Hj.
      destruct (Z_lt_le_dec j 0) as [Hneg|Hpos];
        [rewrite !Z.testbit_neg_r by lia; reflexivity|].
      destruct (Z_lt_le_dec j 8) as [Hj8|Hj8].
      * rewrite (Hbits j ltac:(lia)).
        destruct (Z.eqb_spec j i); [contradiction | reflexivity].
      * rewrite !byte_bits_above by lia. reflexivity.
  - intros Hi. unfold set_bit.
    destruct (Z.geb_spec i 0); destruct (Z.ltb_spec i 8); try lia;
      reflexivity.
Qed.

Lemma set_bit_one_bit_witness :
  (0 <= 7 < 8 ->
     exists new,
       set_bit 1 7 1 = Done new
       /\ 0 <= new < 256
       /\ Z.testbit new 7 = (1 >? 0)
       /\ forall j, j <> 7 -> Z.testbit new j = Z.testbit 1 j)
  /\ (7 < 0 \/ 8 <= 7 -> set_bit 1 7 1 = Fault).
Proof. apply (set_bit_one_bit 1 7 1). lia. Defined.

(** X9.  [convert_to_bit] returns a value exactly when the component count
    is 1 or 2 and one byte can be read, or the count is 3 or 4 and three
    bytes can be read (a fourth byte is never needed); the value is then 0
    or 1.  With any other count, or with fewer bytes, the call has no
    defined result. *)
Theorem convert_to_bit_defined (pixel : list Z) (c : Z) :
  ((exists bit, convert_to_bit pixel c = Done bit)
   <-> ((c = 1 \/ c = 2) /\ (1 <= length pixel)%nat)
       \/ ((c = 3 \/ c = 4) /\ (3 <= length pixel)%nat))
  /\ (forall bit, convert_to_bit pixel c = Done bit -> bit = 0 \/ bit = 1)
  /\ (convert_to_bit pixel c = Fault
      \/ exists bit, convert_to_bit pixel c = Done bit).
Proof.
  assert (forall cond : Prop, ~ cond ->
            ((exists bit : Z, @Fault Z = Done bit) <-> cond)
            /\ (forall bit : Z, @Fault Z = Done bit -> bit = 0 \/ bit = 1)
            /\ (@Fault Z = Fault \/ exists bit : Z, @Fault Z = Done bit))
    as Hfault.
  { intros cond Hcond. split; [|split].
    - split; [intros [bit [=]] | intros H; contradiction].
    - intros bit [=].
    - left. reflexivity. }
  assert (forall (b : bool) (cond : Prop), cond ->
            ((exists bit : Z, Done (if b then 1 else 0) = Done bit) <-> cond)
            /\ (forall bit : Z, Done (if b then 1 else 0) = Done bit ->
                  bit = 0 \/ bit = 1)
            /\ (Done (if b then 1 else 0) = Fault
                \/ exists bit : Z, Done (if b then 1 else 0) = Done bit))
    as Hdone.
  { intros b cond Hcond. split; [|split].
    - split; [intros _; exact Hcond | eauto].
    - intros bit [= <-]. destruct b; auto.
    - right. eauto. }
  unfold convert_to_bit, assert.
  destruct (Z.gtb_spec c 0) as [Hpos|Hneg]; run; [|apply Hfault; lia].
  unfold ESCPOS_COMP_G, ESCPOS_COMP_GA, ESCPOS_COMP_RGB, ESCPOS_COMP_RGBA.
  destruct (Z.eqb_spec c 1) as [->|H1]; [|destruct (Z.eqb_spec c 2) as [->|H2]];
    cbn [orb].
  1,2: destruct pixel as [|p rest]; cbn;
       [apply Hfault; lia | apply Hdone; lia].
  destruct (Z.eqb_spec c 3) as [->|H3]; [|destruct (Z.eqb_spec c 4) as [->|H4]];
    cbn [orb].
  1,2: destruct pixel as [|r [|g [|b rest] ] ]; cbn;
       [apply Hfault; lia | apply Hfault; lia | apply Hfault; lia
       | apply Hdone; lia].
  apply Hfault. lia.
Qed.

(** X10.  For every integer size, also zero and negative ones,
    [calculate_padding] returns left and right with 0 <= left <= right <=
    left + 1 such that size + left + right is a multiple of 32; both are 0
    when size is a multiple of 32.  For a negative size that is not a
    multiple of 32 the padded size is not the least multiple of 32 above
    size but the one after it. *)
Theorem calculate_padding_any_size (size : Z) :
  let left := fst (calculate_padding size) in
  let right := snd (calculate_padding size) in
  (size + left + right) mod 32 = 0
  /\ 0 <= left /\ left <= right /\ right <= left + 1
  /\ (size mod 32 = 0 -> left = 0 /\ right = 0)
  /\ (size < 0 -> size mod 32 <> 0 ->
      size + left + right = 32 * (size / 32 + 1) + 32).
Proof.
  intros left right. subst left right. unfold calculate_padding.
  pose proof (Z.quot_rem' size 32) as Hqr.
  pose proof (Z.div_mod size 32 ltac:(lia)) as Hdm.
  pose proof (Z.mod_pos_bound size 32 ltac:(lia)) as Hmod.
  assert (size < 0 -> -32 < Z.rem size 32 <= 0) as Hremneg.
  { intros Hs. pose proof (Z.rem_bound_pos (- size) 32 ltac:(lia) ltac:(lia)).
    replace size with (- - size) by lia. rewrite Z.rem_opp_l'. lia. }
  assert (-32 < Z.rem size 32 < 32) as Hrem.
  { destruct (Z_le_gt_dec 0 size) as [Hs|Hs].
    - pose proof (Z.rem_bound_pos size 32 Hs ltac:(lia)). lia.
    - specialize (Hremneg ltac:(lia)). lia. }
  assert (Z.rem size 32 = 0 <-> size mod 32 = 0) as Hzero
    by (apply Z.rem_mod_eq_0; lia).
  destruct (Z.eqb_spec (Z.rem size 32) 0) as [Hr0|Hr0]; cbn [fst snd].
  - apply Hzero in Hr0 as Hm0.
    replace (size + 0 + 0) with size by lia.
    repeat split; lia.
  - set (p := 32 - Z.rem size 32) in *.
    assert (1 <= p <= 63) as Hp by (subst p; lia).
    rewrite Z.quot_div_nonneg, Z.rem_mod_nonneg by lia.
    pose proof (Z.div_mod p 2 ltac:(lia)) as Hp2.
    pose proof (Z.mod_pos_bound p 2 ltac:(lia)) as Hpm.
    assert (p / 2 + (p / 2 + (if p mod 2 =? 0 then 0 else 1)) = p) as Hsum
      by (destruct (Z.eqb_spec (p mod 2) 0); lia).
    assert (size + p = 32 * (Z.quot size 32 + 1)) as Hpad by (subst p; lia).
    split.
    { replace (size + p / 2 + (p / 2 + (if p mod 2 =? 0 then 0 else 1)))
        with (0 + (Z.quot size 32 + 1) * 32) by lia.
      rewrite Z.mod_add by lia. reflexivity. }
    split; [apply Z.div_pos; lia|].
    split; [destruct (Z.eqb_spec (p mod 2) 0); lia|].
    split; [destruct (Z.eqb_spec (p mod 2) 0); lia|].
    split; [intros Hm0; apply Hzero in Hm0; contradiction|].
    intros Hneg Hnm.
    assert (Z.quot size 32 = size / 32 + 1) as Hq.
    { specialize (Hremneg Hneg).
      assert (32 * (Z.quot size 32 - size / 32) = size mod 32 - Z.rem size 32)
        by lia.
      nia. }
    lia.
Qed.

(** ** Connection set-up and tear-down *)

(** X11.  When a step of [escpos_printer_network] fails, the function
    returns NULL and [last_error] names the first failing step: the socket
    error when [socket] fails, the invalid-address error when [inet_pton]
    returns 0, the connection error when [connect] does not return 0.  In
    the last two cases the descriptor that [socket] returned is still open:
    the function does not close it. *)
Theorem escpos_printer_network_failure (os : os_answers) (p : process)
    (a : list Z) :
  socket_returns os < 0 \/ inet_pton_returns os = 0 \/ connect_returns os <> 0 ->
  exists p',
    escpos_printer_network os p (Some a) = Done (None, p')
    /\ (socket_returns os < 0 ->
        p' = Process ESCPOS_ERROR_SOCK (open_fds p))
    /\ (0 <= socket_returns os -> inet_pton_returns os = 0 ->
        p' = Process ESCPOS_ERROR_INVALID_ADDR
               (socket_returns os :: open_fds p))
    /\ (0 <= socket_returns os -> inet_pton_returns os <> 0 ->
        p' = Process ESCPOS_ERROR_CONNECTION_FAILED
               (socket_returns os :: open_fds p)).
Proof.
  intros Hfail. unfold escpos_printer_network. cbn [assert bool_decide].
  rewrite bool_decide_true by discriminate. run.
  destruct (Z.ltb_spec (socket_returns os) 0) as [Hs|Hs].
  - eexists. split; [reflexivity|]. repeat split; intros; try lia; reflexivity.
  - destruct (Z.eqb_spec (inet_pton_returns os) 0) as [Hi|Hi].
    + eexists. split; [reflexivity|].
      repeat split; intros; try lia; try contradiction; reflexivity.
    + destruct (Z.eqb_spec (connect_returns os) 0) as [Hc|Hc]; [lia|].
      cbn [negb]. eexists. split; [reflexivity|].
      repeat split; intros; try lia; try contradiction; reflexivity.
Qed.

Lemma escpos_printer_network_failure_witness :
  let os := OsAnswers 5 1 (-1) false in
  let p := Process ESCPOS_ERROR_NONE [3] in
  exists p',
    escpos_printer_network os p (Some [49; 48; 46; 48]) = Done (None, p')
    /\ (socket_returns os < 0 ->
        p' = Process ESCPOS_ERROR_SOCK (open_fds p))
    /\ (0 <= socket_returns os -> inet_pton_returns os = 0 ->
        p' = Process ESCPOS_ERROR_INVALID_ADDR
               (socket_returns os :: open_fds p))
    /\ (0 <= socket_returns os -> inet_pton_returns os <> 0 ->
        p' = Process ESCPOS_ERROR_CONNECTION_FAILED
               (socket_returns os :: open_fds p)).
Proof.
  apply (escpos_printer_network_failure (OsAnswers 5 1 (-1) false)
           (Process ESCPOS_ERROR_NONE [3]) [49; 48; 46; 48]).
  right. right. simpl. lia.
Defined.

(** X12.  When [socket] returns a descriptor that was not open, [inet_pton]
    does not return 0, [connect] returns 0 and [malloc] succeeds,
    [escpos_printer_network] returns a handle that holds the descriptor,
    leaves [last_error] as it was and has the descriptor open; destroying
    that handle closes the descriptor and leaves the process as it was
    before the connection. *)
Theorem escpos_printer_network_destroy (os : os_answers) (p : process)
    (a : list Z) :
  0 <= socket_returns os ->
  inet_pton_returns os <> 0 ->
  connect_returns os = 0 ->
  malloc_fails os = false ->
  ~ In (socket_returns os) (open_fds p) ->
  exists (printer : escpos_printer) (p1 : process),
    escpos_printer_network os p (Some a) = Done (Some printer, p1)
    /\ sockfd printer = socket_returns os
    /\ proc_last_error p1 = proc_last_error p
    /\ open_fds p1 = socket_returns os :: open_fds p
    /\ escpos_printer_destroy (Some printer) p1 = Done p.
Proof.
  intros Hs Hi Hc Hm Hfresh. unfold escpos_printer_network.
  rewrite bool_decide_true by discriminate. run.
  destruct (Z.ltb_spec (socket_returns os) 0) as [|_]; [lia|].
  destruct (Z.eqb_spec (inet_pton_returns os) 0) as [|_]; [contradiction|].
  rewrite Hc, Hm. cbn [Z.eqb negb].
  eexists _, _. split; [reflexivity|]. cbn [sockfd proc_last_error open_fds].
  repeat split.
  unfold escpos_printer_destroy, close.
  rewrite bool_decide_true by discriminate. run.
  cbn [sockfd proc_last_error open_fds List.remove].
  destruct (Z.eq_dec (socket_returns os) (socket_returns os)) as [_|Hne];
    [|contradiction].
  rewrite notin_remove by exact Hfresh.
  destruct p. reflexivity.
Qed.

Lemma escpos_printer_network_destroy_witness :
  let os := OsAnswers 5 1 0 false in
  let p := Process ESCPOS_ERROR_NONE [3] in
  exists (printer : escpos_printer) (p1 : process),
    escpos_printer_network os p (Some [49; 48; 46; 48]) = Done (Some printer, p1)
    /\ sockfd printer = socket_returns os
    /\ proc_last_error p1 = proc_last_error p
    /\ open_fds p1 = socket_returns os :: open_fds p
    /\ escpos_printer_destroy (Some printer) p1 = Done p.
Proof.
  apply (escpos_printer_network_destroy (OsAnswers 5 1 0 false)
           (Process ESCPOS_ERROR_NONE [3]) [49; 48; 46; 48]).
  - simpl. lia.
  - simpl. lia.
  - reflexivity.
  - reflexivity.
  - simpl. intros [H|[]]. discriminate H.
Defined.

(** ** The packer: the room it needs *)

Lemma for_range_last {S : Type} (body : Z -> S -> result S) (n : nat) :
  forall (lo : Z) (s s' : S),
    for_range lo (Datatypes.S n) body s = Done s' ->
    exists s1,
      for_range lo n body s = Done s1
      /\ body (lo + Z.of_nat n) s1 = Done s'.
Proof.
  induction n as [|n IH]; intros lo s s' Hrun.
  - simpl in Hrun. destruct (body lo s) as [s1| |] eqn:Hb; run_in Hrun;
      try discriminate.
    injection Hrun as <-. exists s. split; [reflexivity|].
    rewrite Z.add_0_r. exact Hb.
  - change (for_range lo (Datatypes.S (Datatypes.S n)) body s)
      with (body lo s ≫= for_range (lo + 1) (Datatypes.S n) body) in Hrun.
    destruct (body lo s) as [s0| |] eqn:Hb; run_in Hrun; try discriminate.
    apply IH in Hrun as (s1 & Hrun & Hlast).
    exists s1. split.
    + change (for_range lo (Datatypes.S n) body s)
        with (body lo s ≫= for_range (lo + 1) n body).
      rewrite Hb. exact Hrun.
    + replace (lo + Z.of_nat (Datatypes.S n)) with (lo + 1 + Z.of_nat n)
        by lia.
      exact Hlast.
Qed.

Lemma for_range_keeps {S : Type} (P : S -> Prop) (body : Z -> S -> result S)
    (n : nat) :
  (forall i s s', body i s = Done s' -> P s -> P s') ->
  forall (lo : Z) (s s' : S),
    for_range lo n body s = Done s' -> P s -> P s'.
Proof.
  intros Hbody. induction n as [|n IH]; intros lo s s' Hrun HP; simpl in Hrun.
  - injection Hrun as <-. exact HP.
  - destruct (body lo s) as [s1| |] eqn:Hb; run_in Hrun; try discriminate.
    eapply IH; [exact Hrun|]. eapply Hbody; eassumption.
Qed.

Lemma store_bit_in_bounds (bits bits' : list Z) (curr_byte i bit : Z) :
  store_bit bits curr_byte i bit = Done bits' ->
  length bits' = length bits
  /\ 0 <= curr_byte < Z.of_nat (length bits).
Proof.
  unfold store_bit, deref. intros Hrun.
  destruct (Z.ltb_spec curr_byte 0) as [|Hpos]; run_in Hrun; [discriminate|].
  destruct (bits !! Z.to_nat curr_byte) as [old|] eqn:Hold; run_in Hrun;
    [|discriminate].
  destruct (set_bit old i bit) as [new| |]; run_in Hrun; try discriminate.
  injection Hrun as <-. rewrite length_insert. split; [reflexivity|].
  apply lookup_lt_Some in Hold. lia.
Qed.

(** When a run of columns returns, the buffer has kept its length, and the
    byte of the last dot of the last column lies inside it. *)
Lemma columns_in_bounds (Hp n : Z) (index : Z -> Z -> Z)
    (body : Z -> Z -> list Z -> result (list Z)) (bits bits' : list Z) :
  1 <= Hp ->
  (forall x y b b', body x y b = Done b' ->
     exists bit,
       store_bit b (Z.quot (index x y) 8) (7 - Z.rem (index x y) 8) bit
       = Done b') ->
  for_range 0 (Z.to_nat n)
    (fun x => for_range 0 (Z.to_nat Hp) (body x)) bits = Done bits' ->
  length bits' = length bits
  /\ (1 <= n ->
      0 <= Z.quot (index (n - 1) (Hp - 1)) 8 < Z.of_nat (length bits)).
Proof.
  intros HHp Hbody Hrun.
  assert (forall x b b',
            for_range 0 (Z.to_nat Hp) (body x) b = Done b' ->
            length b' = length b) as Hcol.
  { intros x b b' Hc.
    apply (for_range_keeps (fun s => length s = length b) (body x)
             (Z.to_nat Hp)) with (lo := 0) (s := b); [|exact Hc | reflexivity].
    intros y s s' Hs Hlen. destruct (Hbody x y s s' Hs) as (bit & Hst).
    apply store_bit_in_bounds in Hst as [-> _]. exact Hlen. }
  split.
  - apply (for_range_keeps (fun s => length s = length bits)
             (fun x => for_range 0 (Z.to_nat Hp) (body x)) (Z.to_nat n))
      with (lo := 0) (s := bits); [|exact Hrun | reflexivity].
    intros x s s' Hs Hlen. rewrite (Hcol x s s' Hs). exact Hlen.
  - intros Hn.
    destruct (Z.to_nat n) as [|n'] eqn:En; [lia|].
    apply for_range_last in Hrun as (b1 & Hbefore & Hlast).
    assert (length b1 = length bits) as Hlen1.
    { apply (for_range_keeps (fun s => length s = length bits)
               (fun x => for_range 0 (Z.to_nat Hp) (body x)) n')
        with (lo := 0) (s := bits); [|exact Hbefore | reflexivity].
      intros x s s' Hs Hlen. rewrite (Hcol x s s' Hs). exact Hlen. }
    destruct (Z.to_nat Hp) as [|h'] eqn:Eh; [lia|].
    apply for_range_last in Hlast as (b2 & Hbefore2 & Hlast2).
    assert (length b2 = length b1) as Hlen2.
    { apply (for_range_keeps (fun s => length s = length b1)
               (body (0 + Z.of_nat n')) h')
        with (lo := 0) (s := b1); [|exact Hbefore2 | reflexivity].
      intros y s s' Hs Hlen. destruct (Hbody _ y s s' Hs) as (bit & Hst).
      apply store_bit_in_bounds in Hst as [-> _]. exact Hlen. }
    destruct (Hbody _ _ _ _ Hlast2) as (bit & Hst).
    apply store_bit_in_bounds in Hst as [_ Hin].
    replace (0 + Z.of_nat n') with (n - 1) in Hin by lia.
    replace (0 + Z.of_nat h') with (Hp - 1) in Hin by lia.
    rewrite Hlen2, Hlen1 in Hin. exact Hin.
Qed.

Lemma convert_image_to_bits_room (pixel_bits image_data out : list Z)
    (w h c bw bh : Z) :
  1 <= w -> 1 <= h ->
  convert_image_to_bits pixel_bits image_data w h c = Done (out, bw, bh) ->
  (w + fst (calculate_padding w) + snd (calculate_padding w))
  * (h + (snd (calculate_padding h) + fst (calculate_padding h)))
  <= 8 * Z.of_nat (length pixel_bits).
Proof.
  intros Hw Hh Hrun.
  destruct (calculate_padding_nonneg w Hw) as [Hl0 Hr0].
  destruct (calculate_padding_nonneg h Hh) as [Ht0 Hb0].
  pose proof (calculate_padding_aligned h Hh) as HHp.
  replace (h + fst (calculate_padding h) + snd (calculate_padding h))
    with (h + (snd (calculate_padding h) + fst (calculate_padding h)))
    in HHp by lia.
  unfold convert_image_to_bits in Hrun.
  destruct (calculate_padding w) as [l r].
  destruct (calculate_padding h) as [t b].
  cbn [fst snd] in *.
  set (Hp := h + (b + t)) in *.
  assert (1 <= Hp) as Hp1 by (subst Hp; lia).
  pose proof (aligned_mod_8 Hp HHp) as HHp8.
  pose proof (Z.div_mod Hp 8 ltac:(lia)) as HHpdm. rewrite HHp8 in HHpdm.
  match type of Hrun with
  | (?loop1 ≫= _) = _ => destruct loop1 as [b1| |] eqn:H1
  end; run_in Hrun; try discriminate.
  match type of Hrun with
  | (?loop2 ≫= _) = _ => destruct loop2 as [b2| |] eqn:H2
  end; run_in Hrun; try discriminate.
  match type of Hrun with
  | (?loop3 ≫= _) = _ => destruct loop3 as [b3| |] eqn:H3
  end; run_in Hrun; try discriminate.
  apply (columns_in_bounds Hp l (fun x y => x * Hp + y)) in H1 as [Hlen1 _];
    [|exact Hp1 | intros x y s s' Hs; exists 0; exact Hs].
  apply (columns_in_bounds Hp w (fun x y => l * Hp + x * Hp + y))
    in H2 as [Hlen2 Hlast2]; [|exact Hp1|].
  2:{ intros x y s s' Hs.
      destruct (if y <? h
                then convert_to_bit
                       (drop (Z.to_nat (y * w * c + x * c)) image_data) c
                else Done 0) as [bit| |]; run_in Hs; try discriminate.
      exists bit. exact Hs. }
  apply (columns_in_bounds Hp r
           (fun x y => l * Hp + w * Hp + x * Hp + y))
    in H3 as [Hlen3 Hlast3];
    [|exact Hp1 | intros x y s s' Hs; exists 0; exact Hs].
  cbv beta in Hlast2, Hlast3.
  destruct (Z_le_gt_dec 1 r) as [Hr|Hr].
  - specialize (Hlast3 Hr).
    rewrite Z.quot_div_nonneg in Hlast3 by nia.
    rewrite Hlen2, Hlen1 in Hlast3.
    replace (l * Hp + w * Hp + (r - 1) * Hp + (Hp - 1))
      with ((w + l + r) * Hp - 1) in Hlast3 by lia.
    pose proof (Z.div_mod ((w + l + r) * Hp - 1) 8 ltac:(lia)) as Hdm.
    pose proof (Z.mod_pos_bound ((w + l + r) * Hp - 1) 8 ltac:(lia)) as Hm.
    assert (((w + l + r) * Hp) mod 8 = 0) as HM
      by (replace ((w + l + r) * Hp) with (0 + ((w + l + r) * (Hp / 8)) * 8)
            by lia; rewrite Z.mod_add by lia; reflexivity).
    pose proof (Z.div_mod ((w + l + r) * Hp) 8 ltac:(lia)) as HdmM.
    rewrite HM in HdmM. lia.
  - specialize (Hlast2 Hw).
    rewrite Z.quot_div_nonneg in Hlast2 by nia.
    rewrite Hlen1 in Hlast2.
    assert (r = 0) as -> by lia.
    replace (l * Hp + (w - 1) * Hp + (Hp - 1))
      with ((w + l + 0) * Hp - 1) in Hlast2 by lia.
    pose proof (Z.div_mod ((w + l + 0) * Hp - 1) 8 ltac:(lia)) as Hdm.
    pose proof (Z.mod_pos_bound ((w + l + 0) * Hp - 1) 8 ltac:(lia)) as Hm.
    assert (((w + l + 0) * Hp) mod 8 = 0) as HM
      by (replace ((w + l + 0) * Hp) with (0 + ((w + l + 0) * (Hp / 8)) * 8)
            by lia; rewrite Z.mod_add by lia; reflexivity).
    pose proof (Z.div_mod ((w + l + 0) * Hp) 8 ltac:(lia)) as HdmM.
    rewrite HM in HdmM. lia.
Qed.

(** X14.  For an image of w >= 1 by h >= 1 dots the packer returns exactly
    when the output buffer holds at least Wp*Hp/8 bytes.  With a smaller
    buffer it writes outside the buffer: the call has no defined result. *)
Theorem convert_image_to_bits_needs_room (pixel_bits image_data : list Z)
    (w h c : Z) :
  1 <= w -> 1 <= h ->
  c = 1 \/ c = 2 \/ c = 3 \/ c = 4 ->
  w * h * c <= Z.of_nat (length image_data) ->
  let Wp := w + fst (calculate_padding w) + snd (calculate_padding w) in
  let Hp := h + (snd (calculate_padding h) + fst (calculate_padding h)) in
  ((exists out,
      convert_image_to_bits pixel_bits image_data w h c = Done (out, Wp, Hp))
   <-> Wp * Hp <= 8 * Z.of_nat (length pixel_bits))
  /\ (8 * Z.of_nat (length pixel_bits) < Wp * Hp ->
      convert_image_to_bits pixel_bits image_data w h c = Fault).
Proof.
  intros Hw Hh Hc Himg Wp Hp. split; [split|].
  - intros (out & Hrun).
    exact (convert_image_to_bits_room _ _ _ _ _ _ _ _ Hw Hh Hrun).
  - intros Hroom.
    destruct (convert_image_to_bits_packed pixel_bits image_data w h c
                Hw Hh Hc Himg Hroom) as (out & Hrun & _).
    exists out. exact Hrun.
  - intros Hsmall.
    pose proof (convert_image_to_bits_within_fuel pixel_bits image_data w h c)
      as Hfuel.
    destruct (convert_image_to_bits pixel_bits image_data w h c)
      as [[[out bw] bh]| |] eqn:Hrun;
      [|reflexivity | contradiction Hfuel; reflexivity].
    pose proof (convert_image_to_bits_room _ _ _ _ _ _ _ _ Hw Hh Hrun).
    subst Wp Hp. lia.
Qed.

Lemma convert_image_to_bits_needs_room_witness :
  let Wp := 2 + fst (calculate_padding 2) + snd (calculate_padding 2) in
  let Hp := 2 + (snd (calculate_padding 2) + fst (calculate_padding 2)) in
  ((exists out,
      convert_image_to_bits (replicate 127 0) two_by_two 2 2 1
      = Done (out, Wp, Hp))
   <-> Wp * Hp <= 8 * Z.of_nat (length (replicate 127 0)))
  /\ (8 * Z.of_nat (length (replicate 127 0)) < Wp * Hp ->
      convert_image_to_bits (replicate 127 0) two_by_two 2 2 1 = Fault).
Proof.
  apply (convert_image_to_bits_needs_room (replicate 127 0) two_by_two 2 2 1).
  - lia.
  - lia.
  - left. reflexivity.
  - vm_compute. discriminate.
Defined.

(** ** The orchestrator: images wider than the buffer *)

Lemma convert_image_to_bits_overflow (pixel_bits image_data : list Z)
    (w h c : Z) :
  1 <= w -> 1 <= h ->
  8 * Z.of_nat (length pixel_bits)
  < (w + fst (calculate_padding w) + snd (calculate_padding w))
    * (h + (snd (calculate_padding h) + fst (calculate_padding h))) ->
  convert_image_to_bits pixel_bits image_data w h c = Fault.
Proof.
  intros Hw Hh Hsmall.
  pose proof (convert_image_to_bits_within_fuel pixel_bits image_data w h c)
    as Hfuel.
  destruct (convert_image_to_bits pixel_bits image_data w h c)
    as [[[out bw] bh]| |] eqn:Hrun;
    [|reflexivity | contradiction Hfuel; reflexivity].
  pose proof (convert_image_to_bits_room _ _ _ _ _ _ _ _ Hw Hh Hrun). lia.
Qed.

(** X15.  The orchestrator does not compare the image with its local
    buffer of (ESCPOS_MAX_DOT_WIDTH / 8) * ESCPOS_CHUNK_DOT_HEIGHT bytes:
    when the first chunk of an image, padded, needs more bytes than that,
    the packer writes outside the buffer in the first round, before
    anything is sent, and the call has no defined result. *)
Theorem escpos_printer_image_overflows (K : constants) (st : world)
    (im : image) (stack : nat -> Z) :
  1 <= width im -> 1 <= height im ->
  1 <= ESCPOS_CHUNK_DOT_HEIGHT K ->
  0 <= ESCPOS_MAX_DOT_WIDTH K ->
  let ch := Z.min (ESCPOS_CHUNK_DOT_HEIGHT K) (height im) in
  let Wp := width im + fst (calculate_padding (width im))
            + snd (calculate_padding (width im)) in
  let Hp := ch + (snd (calculate_padding ch) + fst (calculate_padding ch)) in
  8 * (ESCPOS_MAX_DOT_WIDTH K / 8 * ESCPOS_CHUNK_DOT_HEIGHT K) < Wp * Hp ->
  chunk_height K (height im) 0 = ch
  /\ escpos_printer_image K st (Some im) stack = Fault.
Proof.
  intros Hw Hh Hcap Hmax ch Wp Hp Hsmall.
  assert (chunk_height K (height im) 0 = ch) as Hch.
  { unfold chunk_height. subst ch.
    destruct (Z.leb_spec ((0 + 1) * ESCPOS_CHUNK_DOT_HEIGHT K) (height im));
      lia. }
  split; [exact Hch|].
  unfold escpos_printer_image. cbn [image_loop].
  destruct (Z.ltb_spec (0 * print_height K) (height im)) as [_|]; [|lia].
  unfold image_round. rewrite Hch.
  rewrite convert_image_to_bits_overflow; [reflexivity | exact Hw | lia |].
  unfold local_array. rewrite length_fmap, length_seq.
  rewrite Z.quot_div_nonneg by lia.
  assert (0 <= ESCPOS_MAX_DOT_WIDTH K / 8) by (apply Z.div_pos; lia).
  fold Wp Hp. rewrite Z2Nat.id by nia. exact Hsmall.
Qed.

Lemma escpos_printer_image_overflows_witness :
  let K := printer64 in
  let im := Image 65 64 1 (replicate 4160 0) in
  let ch := Z.min (ESCPOS_CHUNK_DOT_HEIGHT K) (height im) in
  chunk_height K (height im) 0 = ch
  /\ escpos_printer_image K (connected net_reliable) (Some im) (fun _ => 0)
     = Fault.
Proof.
  apply (escpos_printer_image_overflows printer64 (connected net_reliable)
           (Image 65 64 1 (replicate 4160 0)) (fun _ => 0)).
  - simpl. lia.
  - simpl. lia.
  - simpl. lia.
  - simpl. lia.
  - vm_compute. reflexivity.
Defined.
